(** * Workshop notebooks: a verification development

    The repository is a set of Jupyter notebooks that drive managed services.
    This file embeds the pieces of Python the notebooks contain
    ([str2bool], [unload_redshift_table], the [hpo_report] cell, the metric
    regular expressions and the log lines they are meant for), and the
    metric extraction the design document describes over those expressions. *)

From Stdlib Require Import ZArith QArith Ascii String List Bool Lia.
From Stdlib Require Import Sorting.Permutation Sorting.Sorted.
From Stdlib Require Import Numbers.DecimalString Numbers.DecimalZ.
From stdpp Require Import base option list gmap strings.

Local Close Scope Q_scope.
Local Open Scope string_scope.
Local Open Scope list_scope.

(** * Part I: the embedding *)

(** ** Python outcomes: a call either returns a value or raises *)

Inductive PyException : Type :=
  | ArgumentTypeError (msg : string)
  | IndexError.

Inductive Outcome (A : Type) : Type :=
  | Returns (a : A)
  | Raises (e : PyException).
Arguments Returns {A} a.
Arguments Raises {A} e.

(** [x in (a, b, ...)] on a tuple of strings: equality with some element. *)
Definition str_in (x : string) (t : list string) : bool :=
  existsb (String.eqb x) t.

(** ** The boolean-argument parser of the training scripts *)

Module Str2Bool.

(** [str.lower()] on the ASCII range: ['A'..'Z'] go to ['a'..'z'], every
    other character is kept. *)
Definition lower_char (c : ascii) : ascii :=
  let n := nat_of_ascii c in
  if (65 <=? n)%nat && (n <=? 90)%nat then ascii_of_nat (n + 32) else c.

Fixpoint lower (s : string) : string :=
  match s with
  | EmptyString => EmptyString
  | String c s' => String (lower_char c) (lower s')
  end.

(** What argparse hands to [type=str2bool]: the [const=True] boolean or the
    text of the command-line argument. *)
Inductive Arg : Type :=
  | ArgBool (b : bool)
  | ArgStr (s : string).

Definition truthy : list string := ["yes"; "true"; "t"; "y"; "1"].
Definition falsy : list string := ["no"; "false"; "f"; "n"; "0"].
Definition expected : PyException := ArgumentTypeError "Boolean value expected.".

Definition str2bool (v : Arg) : Outcome bool :=
  match v with
  | ArgBool b => Returns b
  | ArgStr s =>
      if str_in (lower s) truthy then Returns true
      else if str_in (lower s) falsy then Returns false
      else Raises expected
  end.

End Str2Bool.

(** ** The Redshift unload loop *)

Module Redshift.

(** The line feed, and a line of a triple-quoted literal with it. *)
Definition nl : string := String (ascii_of_nat 10) EmptyString.
Definition line (s : string) : string := s +:+ nl.

(** [str(year)] for a Python integer. *)
Definition str (n : Z) : string := NilZero.string_of_int (Z.to_int n).

(** [range(start, stop, 1)]: the integers from [start] up to [stop - 1]. *)
Definition range (start stop : Z) : list Z :=
  map (fun i => (start + Z.of_nat i)%Z) (seq 0 (Z.to_nat (stop - start))).

(** [template.format(args)] for a template whose only braces are
    auto-numbered [{}] fields: each field takes the next argument, and a
    field with no argument left raises [IndexError] ([None] here). *)
Fixpoint format (template : string) (args : list string) : option string :=
  match template with
  | EmptyString => Some EmptyString
  | String "{" (String "}" rest) =>
      match args with
      | [] => None
      | a :: args' => option_map (String.append a) (format rest args')
      end
  | String c rest => option_map (String c) (format rest args)
  end.

(** The triple-quoted literal of [statement], line by line (three of its
    lines end in a blank, and the last line has no line feed). *)
Definition template : string := Eval vm_compute in
  (line "" +:+
  line "            UNLOAD ('SELECT marketplace, customer_id, review_id, product_id, product_parent, " +:+
  line "                product_title, product_category, star_rating, helpful_votes, total_votes, " +:+
  line "                vine, verified_purchase, review_headline, review_body, review_date, year " +:+
  line "            FROM redshift.{}')" +:+
  line "            TO '{}/{}/'" +:+
  line "            IAM_ROLE '{}'" +:+
  line "            PARQUET PARALLEL ON " +:+
  line "            PARTITION BY (product_category)" +:+
  "        ").

(** What the call can touch: the notebook's standard output, and the
    database sessions ([session.execute] queues a statement in the session's
    open transaction, [session.commit] commits what is queued). *)
Record SessionState : Type := mkSession {
  pending : list string;
  committed : list string
}.

Record World : Type := mkWorld {
  stdout : list string;
  sessions : gmap nat SessionState
}.

Definition M (A : Type) : Type := World -> Outcome A * World.

Definition ret {A : Type} (a : A) : M A := fun w => (Returns a, w).

Definition raise {A : Type} (e : PyException) : M A := fun w => (Raises e, w).

Definition bind {A B : Type} (m : M A) (k : A -> M B) : M B :=
  fun w =>
    match m w with
    | (Returns a, w') => k a w'
    | (Raises e, w') => (Raises e, w')
    end.

Notation "x <- m ;; k" := (bind m (fun x => k))
  (at level 100, m at next level, right associativity).
Notation "m ;;; k" := (bind m (fun _ => k))
  (at level 100, right associativity).

(** [print(s)]: one more item on standard output. *)
Definition print (s : string) : M unit :=
  fun w => (Returns tt, mkWorld (stdout w ++ [s]) (sessions w)).

(** [session.execute(statement)] and [session.commit()]: the two calls the
    source has commented out. *)
Definition session_execute (session : nat) (statement : string) : M unit :=
  fun w =>
    (Returns tt,
     mkWorld (stdout w)
       (alter (fun s => mkSession (pending s ++ [statement]) (committed s))
          session (sessions w))).

Definition session_commit (session : nat) : M unit :=
  fun w =>
    (Returns tt,
     mkWorld (stdout w)
       (alter (fun s => mkSession [] (committed s ++ pending s))
          session (sessions w))).

(** [for x in xs: body(x)] *)
Fixpoint for_each {A : Type} (xs : list A) (body : A -> M unit) : M unit :=
  match xs with
  | [] => ret tt
  | x :: xs' => body x ;;; for_each xs' body
  end.

Definition format_or_raise (t : string) (args : list string) : M string :=
  match format t args with
  | Some s => ret s
  | None => raise IndexError
  end.

Definition unload_redshift_table
    (session : nat) (table_name_prefix : string) (start_year end_year : Z)
    (s3_path iam_role : string) : M unit :=
  for_each (range start_year (end_year + 1)) (fun year =>
    let current_table_name := table_name_prefix +:+ "_" +:+ str year in
    statement <- format_or_raise template
                   [current_table_name; s3_path; str year; iam_role] ;;
    print statement
    (* session.execute(statement) *)
  ) ;;;
  (* session.commit() *)
  print "Done.".

(** The statement the loop is expected to print for one year: the [SELECT]
    of the fifteen columns from [redshift.<prefix>_<year>], unloaded to
    [<s3_path>/<year>/] under the given role. *)
Definition select_columns : string :=
  line "" +:+
  line "            UNLOAD ('SELECT marketplace, customer_id, review_id, product_id, product_parent, " +:+
  line "                product_title, product_category, star_rating, helpful_votes, total_votes, " +:+
  line "                vine, verified_purchase, review_headline, review_body, review_date, year " +:+
  "            FROM ".

Definition unload_options : string :=
  line "            PARQUET PARALLEL ON " +:+
  line "            PARTITION BY (product_category)" +:+
  "        ".

Definition expected_statement
    (table_name_prefix s3_path iam_role : string) (year : Z) : string :=
  select_columns +:+
  "redshift." +:+ table_name_prefix +:+ "_" +:+ str year +:+ line "')" +:+
  "            TO '" +:+ s3_path +:+ "/" +:+ str year +:+ line "/'" +:+
  "            IAM_ROLE '" +:+ iam_role +:+ line "'" +:+
  unload_options.

End Redshift.

(** ** The tuning report of the HPO notebook *)

Module Hpo.

(** What the tuning service lists for one training job (one trial): its
    name, status, the tuned hyperparameter, the final value of the objective
    metric ([None] when the job reported none; a NaN cell of the data frame),
    and when the tuner submitted it. *)
Inductive JobStatus : Type := InProgress | Completed | Failed | Stopping | Stopped.

Definition is_completed (s : JobStatus) : bool :=
  match s with
  | Completed => true
  | InProgress | Failed | Stopping | Stopped => false
  end.

Record Trial : Type := mkTrial {
  TrainingJobName : string;
  TrainingJobStatus : JobStatus;
  learning_rate : Q;
  FinalObjectiveValue : option Q;
  CreationTime : nat
}.

(** A row of [tuner_metrics.dataframe()]: the trial under its index label. *)
Record Row : Type := mkRow {
  index : nat;
  trial : Trial
}.

(** A row of [hpo_report] once the column [job_id] is there. *)
Record ReportRow : Type := mkReportRow {
  report_index : nat;
  report_trial : Trial;
  job_id : Z
}.

(** A data frame: its column labels and its rows. *)
Record Frame (R : Type) : Type := mkFrame {
  columns : list string;
  rows : list R
}.
Arguments mkFrame {R} columns rows.
Arguments columns {R} f.
Arguments rows {R} f.

(** What a frame expression evaluates to: a value, or the [KeyError] pandas
    raises when it is asked for a column the frame does not have. *)
Inductive Cell (A : Type) : Type :=
  | Value (a : A)
  | KeyError (column : string).
Arguments Value {A} a.
Arguments KeyError {A} column.

Definition cell_bind {A B : Type} (m : Cell A) (k : A -> Cell B) : Cell B :=
  match m with
  | Value a => k a
  | KeyError column => KeyError column
  end.

(** A fresh [RangeIndex]: row [i] under label [i]. *)
Fixpoint enumerate_from (i : nat) (summaries : list Trial) : list Row :=
  match summaries with
  | [] => []
  | t :: rest => mkRow i t :: enumerate_from (S i) rest
  end.

(** The columns of the frame of a listing that is not empty; the notebook
    reads ['FinalObjectiveValue'] and ['learning_rate']. *)
Definition trial_columns : list string :=
  ["learning_rate"; "TrainingJobName"; "TrainingJobStatus";
   "FinalObjectiveValue"].

(** [tuner_metrics.dataframe()], that is [pd.DataFrame(summaries)]: one row
    per summary, and the keys of the summaries as columns. The frame of an
    empty listing has no rows and no columns. *)
Definition dataframe (summaries : list Trial) : Frame Row :=
  mkFrame (match summaries with [] => [] | _ :: _ => trial_columns end)
          (enumerate_from 0 summaries).

(** A stable sort of rows: [before] holds along the result. *)
Section SortRows.
Context {R : Type} (before : R -> R -> bool).

Fixpoint insert_row (r : R) (sorted : list R) : list R :=
  match sorted with
  | [] => [r]
  | r' :: rest => if before r r' then r :: sorted else r' :: insert_row r rest
  end.

Definition sort_rows (rows : list R) : list R :=
  fold_right insert_row [] rows.

End SortRows.

(** What pandas promises of the sort it runs (numpy's quicksort unless a
    [kind] is given, which is not stable): the same rows, in the order asked
    for. How rows with equal keys come out is left to the sort. *)
Definition sorts_by {R : Type} (before : R -> R -> bool)
    (sort : list R -> list R) : Prop :=
  forall rows,
    Permutation (sort rows) rows /\
    StronglySorted (fun a b => before a b = true) (sort rows).

(** [df.sort_values(column)]: [KeyError] unless the frame has the column;
    otherwise the rows sorted, every row keeping its index label. *)
Definition sort_values_with {R : Type} (sort : list R -> list R)
    (column : string) (df : Frame R) : Cell (Frame R) :=
  if str_in column (columns df)
  then Value (mkFrame (columns df) (sort (rows df)))
  else KeyError column.

Definition sort_values {R : Type} (column : string) (before : R -> R -> bool)
    (df : Frame R) : Cell (Frame R) :=
  sort_values_with (sort_rows before) column df.

(** The order of [sort_values(['FinalObjectiveValue'], ascending=False)]:
    larger values first, missing values last. *)
Definition by_objective_descending (r1 r2 : Row) : bool :=
  match FinalObjectiveValue (trial r1), FinalObjectiveValue (trial r2) with
  | Some a, Some b => Qle_bool b a
  | Some _, None => true
  | None, Some _ => false
  | None, None => true
  end.

(** The order of [sort_values(by='job_id')]. *)
Definition by_job_id (r1 r2 : ReportRow) : bool :=
  (job_id r1 <=? job_id r2)%Z.

(** [len(hpo_report) - hpo_report.index]: the row of label [i] gets
    [n - i]. *)
Definition with_job_id (n : nat) (r : Row) : ReportRow :=
  mkReportRow (index r) (trial r) (Z.of_nat n - Z.of_nat (index r)).

Definition assign_job_id (rows : list Row) : list ReportRow :=
  map (with_job_id (length rows)) rows.

(** [hpo_report['job_id'] = len(hpo_report) - hpo_report.index]: a new
    column; assigning it works on any frame. *)
Definition set_job_id (df : Frame Row) : Frame ReportRow :=
  mkFrame (columns df ++ ["job_id"]) (assign_job_id (rows df)).

(** The report cell, over the two sorts pandas runs for it:
<<
    hpo_report = tuner_metrics.dataframe().sort_values(['FinalObjectiveValue'], ascending=False)
    hpo_report['job_id'] = len(hpo_report) - hpo_report.index
    hpo_report.sort_values(by='job_id', inplace=True)
>> *)
Definition hpo_report_with
    (sort_objective : list Row -> list Row)
    (sort_job_id : list ReportRow -> list ReportRow)
    (summaries : list Trial) : Cell (Frame ReportRow) :=
  cell_bind
    (sort_values_with sort_objective "FinalObjectiveValue" (dataframe summaries))
    (fun hpo_report =>
       let hpo_report := set_job_id hpo_report in
       sort_values_with sort_job_id "job_id" hpo_report).

(** The cell run with the stable sort above. Which sort runs makes no
    difference to the report (see [HpoFacts]). *)
Definition hpo_report (summaries : list Trial) : Cell (Frame ReportRow) :=
  hpo_report_with (sort_rows by_objective_descending) (sort_rows by_job_id)
    summaries.

(** The two columns the notebook plots against each other:
    [hpo_report['learning_rate']] and [hpo_report['FinalObjectiveValue']]. *)
Definition pairs (report : Frame ReportRow) : list (Q * option Q) :=
  map (fun r => (learning_rate (report_trial r),
                 FinalObjectiveValue (report_trial r))) (rows report).

(** The listing of a finished search: five trials, newest first. *)
Definition finished_search : list Trial :=
  [ mkTrial "pt-bert-005" Completed (3 # 100000) (Some (88 # 100)%Q) 5;
    mkTrial "pt-bert-004" Failed (41 # 100000) None 4;
    mkTrial "pt-bert-003" Completed (6 # 100000) (Some (91 # 100)%Q) 3;
    mkTrial "pt-bert-002" Stopped (1 # 100000) (Some (80 # 100)%Q) 2;
    mkTrial "pt-bert-001" Completed (5 # 100000) (Some (91 # 100)%Q) 1 ].

End Hpo.

(** ** Metric definitions: regular expressions over the training log *)

Module Metric.

(** The patterns of [metric_definitions] are built from literal characters,
    a character class, a greedy [+] and one capture group. The syntax below
    has these and alternation and [*]; [Grp] is capture group 1, the only group
    whose text is kept. *)
Inductive regex : Type :=
  | Eps
  | Chr (c : ascii)
  | Cls (ranges : list (ascii * ascii))
  | Cat (r1 r2 : regex)
  | Alt (r1 r2 : regex)
  | Star (r : regex)
  | Grp (r : regex).

(** [r+] is [r r*]. *)
Definition Plus (r : regex) : regex := Cat r (Star r).

(** A run of literal characters. *)
Fixpoint lit (s : list ascii) : regex :=
  match s with
  | [] => Eps
  | c :: s' => Cat (Chr c) (lit s')
  end.

Definition in_range (c : ascii) (range : ascii * ascii) : bool :=
  (nat_of_ascii (fst range) <=? nat_of_ascii c)%nat &&
  (nat_of_ascii c <=? nat_of_ascii (snd range))%nat.

Definition in_class (ranges : list (ascii * ascii)) (c : ascii) : bool :=
  existsb (in_range c) ranges.

(** *** The language of a pattern *)

Inductive matches : regex -> list ascii -> Prop :=
  | MEps : matches Eps []
  | MChr c : matches (Chr c) [c]
  | MCls ranges c : in_class ranges c = true -> matches (Cls ranges) [c]
  | MCat r1 r2 s1 s2 :
      matches r1 s1 -> matches r2 s2 -> matches (Cat r1 r2) (s1 ++ s2)
  | MAltL r1 r2 s : matches r1 s -> matches (Alt r1 r2) s
  | MAltR r1 r2 s : matches r2 s -> matches (Alt r1 r2) s
  | MStarNil r : matches (Star r) []
  | MStarApp r s1 s2 :
      matches r s1 -> matches (Star r) s2 -> matches (Star r) (s1 ++ s2)
  | MGrp r s : matches r s -> matches (Grp r) s.

(** The pattern matches somewhere in the text. *)
Definition occurs (r : regex) (text : list ascii) : Prop :=
  exists before m after, text = before ++ m ++ after /\ matches r m.

(** *** The backtracking matcher

    A thread is what is left of the input and the text of the group so far.
    [run r s g] lists the threads that come out of matching [r] at the start
    of [s], the preferred first: the left branch of an alternation before the
    right one, one more turn of a loop before leaving it. *)
Definition thread : Type := list ascii * option (list ascii).

Fixpoint star_loop (step : list ascii -> option (list ascii) -> list thread)
    (fuel : nat) (s : list ascii) (g : option (list ascii)) : list thread :=
  match fuel with
  | O => [(s, g)]
  | S fuel' =>
      flat_map (fun t : thread =>
                  if (length (fst t) <? length s)%nat
                  then star_loop step fuel' (fst t) (snd t)
                  else [])
               (step s g)
      ++ [(s, g)]
  end.

Fixpoint run (r : regex) (s : list ascii) (g : option (list ascii)) : list thread :=
  match r with
  | Eps => [(s, g)]
  | Chr c =>
      match s with
      | c' :: s' => if Ascii.eqb c c' then [(s', g)] else []
      | [] => []
      end
  | Cls ranges =>
      match s with
      | c' :: s' => if in_class ranges c' then [(s', g)] else []
      | [] => []
      end
  | Cat r1 r2 => flat_map (fun t : thread => run r2 (fst t) (snd t)) (run r1 s g)
  | Alt r1 r2 => run r1 s g ++ run r2 s g
  | Star r1 => star_loop (run r1) (length s) s g
  | Grp r1 =>
      map (fun t : thread =>
             (fst t, Some (firstn (length s - length (fst t)) s)))
          (run r1 s g)
  end.

(** [re.search]: the first position of the text where the pattern matches,
    and there the preferred thread; the result is the text of the group
    ([None] inside when the match did not go through the group). *)
Fixpoint search (r : regex) (text : list ascii) : option (option (list ascii)) :=
  match run r text None with
  | t :: _ => Some (snd t)
  | [] =>
      match text with
      | [] => None
      | _ :: text' => search r text'
      end
  end.

(** *** Reading the captured text as a number

    A decimal numeral: digits with at most one point and at least one digit.
    Its value is kept exactly, as mantissa over a power of ten. *)
Definition is_digit (c : ascii) : bool := in_range c ("0", "9")%char.

Fixpoint digits_value (acc : Z) (s : list ascii) : option Z :=
  match s with
  | [] => Some acc
  | c :: s' =>
      if is_digit c
      then digits_value (10 * acc + Z.of_nat (nat_of_ascii c - 48)) s'
      else None
  end.

Fixpoint split_point (s : list ascii) : list ascii * option (list ascii) :=
  match s with
  | [] => ([], None)
  | c :: s' =>
      if Ascii.eqb c "." then ([], Some s')
      else let (i, f) := split_point s' in (c :: i, f)
  end.

Definition pow10 (n : nat) : positive := Nat.iter n (Pos.mul 10) 1%positive.

Definition number_of_text (s : list ascii) : option Q :=
  let (i, f) := split_point s in
  let f := default [] f in
  match i ++ f with
  | [] => None
  | _ :: _ =>
      match digits_value 0 (i ++ f) with
      | Some m => Some (Qmake m (pow10 (length f)))
      | None => None
      end
  end.

(** *** The notebook's metric definitions and log lines *)

Definition text_of (s : string) : list ascii := list_ascii_of_string s.

(** [[0-9\.]]: a digit or a point. *)
Definition digit_or_point_ranges : list (ascii * ascii) :=
  [("0", "9"); (".", ".")]%char.

Definition digit_or_point : regex := Cls digit_or_point_ranges.

(** A text made of digits and points only, and a text that does not go on
    with a digit or a point. *)
Definition digits_and_points (s : list ascii) : bool :=
  forallb (in_class digit_or_point_ranges) s.

Definition numeral_ends (rest : list ascii) : bool :=
  match rest with
  | [] => true
  | c :: _ => negb (in_class digit_or_point_ranges c)
  end.

(** ['f1_': ([0-9\.]+)], the [Regex] of the GLUE [metric_definitions]. *)
Definition glue_regex : regex :=
  Cat (lit (text_of "'f1_': ")) (Grp (Plus digit_or_point)).

(** ['f1': ([0-9\.]+)], the [Regex] of the SQuAD [metric_definitions]. *)
Definition squad_regex : regex :=
  Cat (lit (text_of "'f1': ")) (Grp (Plus digit_or_point)).

(** The evaluation printouts the notebook quotes from the two training logs
    (the second without the line breaks of the quotation). *)
Definition glue_log : string :=
  "Evaluation result =  {'acc_': 0.8455882352941176, 'f1_': 0.8941176470588236, 'acc_and_f1_': 0.8698529411764706}".

Definition squad_log : string :=
  "Evaluation result ={'exact': 80.71901608325449, 'f1': 88.0493020797288, 'total': 10570, 'HasAns_exact': 80.71901608325449, 'HasAns_f1': 88.0493020797288, 'HasAns_total': 10570}".

(** *** The orchestrator's metric extraction *)

Record MetricRule : Type := mkRule {
  Name : string;
  Regex : regex
}.

Definition glue_rule : MetricRule := mkRule "f1_score" glue_regex.
Definition squad_rule : MetricRule := mkRule "f1_score" squad_regex.

Inductive MetricValue : Type :=
  | Number (value : Q)
  | Absent.

(** Modelled from the spec: [extractMetric], the operation of the
    TrainingJobOrchestrator that "applies the rule's pattern to rawLogText;
    returns the first match's captured numeric group, or absent if no
    match". The notebooks have no such function (they hand the pattern to the
    tuning service); the patterns and log lines above are theirs. A captured
    text that is no numeral gives [Absent] too. *)
Definition extractMetric (rawLogText : string) (rule : MetricRule) : MetricValue :=
  match search (Regex rule) (text_of rawLogText) with
  | Some (Some captured) =>
      match number_of_text captured with
      | Some value => Number value
      | None => Absent
      end
  | Some None => Absent
  | None => Absent
  end.

End Metric.

(** ** More of the notebooks *)

(** [c in s] for a character and a string. *)
Fixpoint contains_char (c : ascii) (s : string) : bool :=
  match s with
  | EmptyString => false
  | String c' s' => Ascii.eqb c c' || contains_char c s'
  end.

(** *** The names of the two tuning jobs *)
Module JobNames.

(** [gmtime()]: the fields of a [struct_time] that a format can use. *)
Record struct_time : Type := mkTime {
  tm_year : nat;
  tm_mon : nat;
  tm_mday : nat;
  tm_hour : nat;
  tm_min : nat;
  tm_sec : nat
}.

(** The ranges [gmtime] keeps its fields in. *)
Definition valid_time (t : struct_time) : Prop :=
  (1 <= tm_mon t <= 12)%nat /\ (1 <= tm_mday t <= 31)%nat /\
  (tm_hour t <= 23)%nat /\ (tm_min t <= 59)%nat /\ (tm_sec t <= 61)%nat.

Definition digit (n : nat) : ascii := ascii_of_nat (48 + n).

(** [%d], [%H], [%M] and [%S]: two decimal digits, zero padded. *)
Definition two_digits (n : nat) : string :=
  String (digit (n / 10)) (String (digit (n mod 10)) EmptyString).

(** [strftime("%d-%H-%M-%S", t)] *)
Definition strftime_d_H_M_S (t : struct_time) : string :=
  two_digits (tm_mday t) +:+ "-" +:+ two_digits (tm_hour t) +:+ "-" +:+
  two_digits (tm_min t) +:+ "-" +:+ two_digits (tm_sec t).

Definition glue_tuning_job_name (now : struct_time) : option string :=
  Redshift.format "pt-bert-mrpc-bs-{}" [strftime_d_H_M_S now].

Definition squad_tuning_job_name (now : struct_time) : option string :=
  Redshift.format "pt-squad1-bs-{}" [strftime_d_H_M_S now].

End JobNames.

(** *** The Redshift connection: credentials and engine URL *)
Module RedshiftSetup.

(** What [json.loads] returns: [None], a bool, a number, a str, a list, or
    a dict with str keys (the members in document order; of two members
    with one key the later one counts). *)
#[warnings="-register-all"]
Inductive json : Type :=
  | JNull
  | JBool (b : bool)
  | JNumber (n : Q)
  | JString (s : string)
  | JArray (items : list json)
  | JObject (members : list (string * json)).

Inductive LookupError : Type := KeyError | IndexError | TypeError.

Inductive Try (A : Type) : Type :=
  | Ok (a : A)
  | Err (e : LookupError).
Arguments Ok {A} a.
Arguments Err {A} e.

Fixpoint member (key : string) (members : list (string * json)) : option json :=
  match members with
  | [] => None
  | (k, v) :: rest =>
      match member key rest with
      | Some later => Some later
      | None => if String.eqb key k then Some v else None
      end
  end.

(** [v[i]] for a non-negative integer literal [i]. *)
Definition getitem_index (v : json) (i : nat) : Try json :=
  match v with
  | JArray items =>
      match nth_error items i with
      | Some x => Ok x
      | None => Err IndexError
      end
  | JObject _ => Err KeyError
  | JString s =>
      match String.get i s with
      | Some c => Ok (JString (String c EmptyString))
      | None => Err IndexError
      end
  | JNull | JBool _ | JNumber _ => Err TypeError
  end.

(** [v[key]] for a str [key]. *)
Definition getitem_key (v : json) (key : string) : Try json :=
  match v with
  | JObject members =>
      match member key members with
      | Some x => Ok x
      | None => Err KeyError
      end
  | JArray _ | JString _ | JNull | JBool _ | JNumber _ => Err TypeError
  end.

Definition try_bind {A B : Type} (m : Try A) (k : A -> Try B) : Try B :=
  match m with
  | Ok a => k a
  | Err e => Err e
  end.

(** [master_user_name = cred[0]['username']] and then
    [master_user_pw = cred[1]['password']]. *)
Definition credentials (cred : json) : Try (json * json) :=
  try_bind (getitem_index cred 0) (fun first =>
  try_bind (getitem_key first "username") (fun master_user_name =>
  try_bind (getitem_index cred 1) (fun second =>
  try_bind (getitem_key second "password") (fun master_user_pw =>
  Ok (master_user_name, master_user_pw))))).

(** The argument of [create_engine]. *)
Definition engine_url
    (master_user_name master_user_pw redshift_endpoint_address
     redshift_port database_name_redshift : string) : option string :=
  Redshift.format "postgresql://{}:{}@{}:{}/{}"
    [master_user_name; master_user_pw; redshift_endpoint_address;
     redshift_port; database_name_redshift].

End RedshiftSetup.

(** *** Around the tuning report *)
Module HpoCells.
Import Hpo.

(** [df.head(n)] *)
Definition head {R : Type} (n : nat) (df : Frame R) : Frame R :=
  mkFrame (columns df) (firstn n (rows df)).

(** [tuner_metrics.dataframe().sort_values(['FinalObjectiveValue'],
    ascending=False).head(10)], over the sort pandas runs for it: which of
    two rows with equal values comes first, and so which of them the table
    shows, is the sort's choice. *)
Definition best_trials (sort_objective : list Row -> list Row)
    (summaries : list Trial) : Cell (Frame Row) :=
  cell_bind
    (sort_values_with sort_objective "FinalObjectiveValue" (dataframe summaries))
    (fun sorted => Value (head 10 sorted)).

(** [x = len(hpo_report) - hpo_report.index], the abscissa of the third
    plot. *)
Definition order_axis (hpo_report : Frame ReportRow) : list Z :=
  map (fun r => Z.of_nat (length (rows hpo_report)) - Z.of_nat (report_index r))%Z
      (rows hpo_report).

End HpoCells.

(** * Part II: properties *)

Lemma str_in_In x t : str_in x t = true <-> In x t.
Proof.
  unfold str_in. rewrite existsb_exists. split.
  - intros (y & Hy & Heq). apply String.eqb_eq in Heq. now subst.
  - intros Hin. exists x. split; [assumption | apply String.eqb_refl].
Qed.

Lemma str_in_not_In x t : str_in x t = false <-> ~ In x t.
Proof.
  rewrite <- str_in_In. destruct (str_in x t); split; congruence.
Qed.

Lemma string_app_assoc (s1 s2 s3 : string) :
  (s1 +:+ s2) +:+ s3 = s1 +:+ (s2 +:+ s3).
Proof.
  induction s1 as [| c s1 IH]; [reflexivity |].
  change (String c ((s1 +:+ s2) +:+ s3) = String c (s1 +:+ (s2 +:+ s3))).
  now rewrite IH.
Qed.

(** ** [str2bool] *)

Module Str2BoolFacts.
Import Str2Bool.

Example str2bool_True : str2bool (ArgStr "True") = Returns true.
Proof. reflexivity. Qed.

Example str2bool_FALSE : str2bool (ArgStr "FALSE") = Returns false.
Proof. reflexivity. Qed.

Example str2bool_maybe : str2bool (ArgStr "maybe") = Raises expected.
Proof. reflexivity. Qed.

Example str2bool_empty : str2bool (ArgStr "") = Raises expected.
Proof. reflexivity. Qed.

Lemma truthy_falsy_disjoint x : In x truthy -> In x falsy -> False.
Proof.
  unfold truthy, falsy. simpl.
  intros Ht Hf.
  repeat (destruct Ht as [Ht | Ht]; [subst x | ]); try contradiction;
    repeat (destruct Hf as [Hf | Hf]; [discriminate Hf | ]); contradiction.
Qed.

Lemma str2bool_true_iff s :
  str2bool (ArgStr s) = Returns true <-> In (lower s) truthy.
Proof.
  unfold str2bool. rewrite <- str_in_In.
  destruct (str_in (lower s) truthy); [tauto |].
  destruct (str_in (lower s) falsy); split; congruence.
Qed.

Lemma str2bool_false_iff s :
  str2bool (ArgStr s) = Returns false <-> In (lower s) falsy.
Proof.
  unfold str2bool. split.
  - destruct (str_in (lower s) truthy) eqn:Ht; [discriminate |].
    destruct (str_in (lower s) falsy) eqn:Hf; [| discriminate].
    intros _. now apply str_in_In.
  - intros Hf.
    destruct (str_in (lower s) truthy) eqn:Ht.
    + apply str_in_In in Ht. destruct (truthy_falsy_disjoint _ Ht Hf).
    + apply str_in_In in Hf. now rewrite Hf.
Qed.

Lemma str2bool_raises_iff s e :
  str2bool (ArgStr s) = Raises e <->
  e = expected /\ ~ In (lower s) truthy /\ ~ In (lower s) falsy.
Proof.
  unfold str2bool. rewrite <- !str_in_not_In.
  destruct (str_in (lower s) truthy); [intuition congruence |].
  destruct (str_in (lower s) falsy); [intuition congruence |].
  split; [intros [= <-]; auto | intros (-> & _); reflexivity].
Qed.

(** C10. [str2bool] returns a boolean argument unchanged; on a string it
    returns [True] exactly when the lower-cased string is one of 'yes',
    'true', 't', 'y', '1', returns [False] exactly when it is one of 'no',
    'false', 'f', 'n', '0', and raises [ArgumentTypeError] on every other
    string (and only there). *)
Theorem str2bool_spec :
  (forall b, str2bool (ArgBool b) = Returns b) /\
  (forall s, str2bool (ArgStr s) = Returns true <-> In (lower s) truthy) /\
  (forall s, str2bool (ArgStr s) = Returns false <-> In (lower s) falsy) /\
  (forall s, ~ In (lower s) truthy -> ~ In (lower s) falsy ->
             str2bool (ArgStr s) = Raises expected) /\
  (forall s e, str2bool (ArgStr s) = Raises e ->
               e = expected /\ ~ In (lower s) (truthy ++ falsy)).
Proof.
  split; [reflexivity |].
  split; [apply str2bool_true_iff |].
  split; [apply str2bool_false_iff |].
  split.
  - intros s Ht Hf. apply str2bool_raises_iff. auto.
  - intros s e He. apply str2bool_raises_iff in He as (-> & Ht & Hf).
    split; [reflexivity |]. rewrite in_app_iff. tauto.
Qed.

Lemma str2bool_spec_witness :
  str2bool (ArgStr "YES") = Returns true /\
  str2bool (ArgStr "No") = Returns false /\
  str2bool (ArgStr "2") = Raises expected.
Proof.
  destruct str2bool_spec as (_ & Ht & Hf & Hr & _).
  split; [apply Ht; simpl; tauto |].
  split; [apply Hf; simpl; tauto |].
  apply Hr; simpl; intuition discriminate.
Defined.

End Str2BoolFacts.

(** ** [unload_redshift_table] *)

Module RedshiftFacts.
Import Redshift.

Example range_2011_2015 : range 2011 (2015 + 1) = [2011; 2012; 2013; 2014; 2015]%Z.
Proof. reflexivity. Qed.

Example str_examples : str 2011 = "2011" /\ str 0 = "0" /\ str (-7) = "-7".
Proof. repeat split. Qed.

(** Different years have different numerals, so different tables. *)
Lemma str_inj a b : str a = str b -> a = b.
Proof.
  assert (Hnorm : forall z, NilZero.int_of_string (str z) = Some (Z.to_int z)).
  { intros z. unfold str. apply NilZero.isi; intros Heq.
    - pose proof (DecimalZ.of_to z) as Hz. rewrite Heq in Hz. simpl in Hz.
      subst z. discriminate Heq.
    - pose proof (DecimalZ.of_to z) as Hz. rewrite Heq in Hz. simpl in Hz.
      subst z. discriminate Heq. }
  intros Heq. apply DecimalZ.to_int_inj.
  pose proof (Hnorm a) as Ha. rewrite Heq, Hnorm in Ha. congruence.
Qed.

Lemma table_name_inj prefix a b :
  prefix +:+ "_" +:+ str a = prefix +:+ "_" +:+ str b -> a = b.
Proof.
  intros Heq. apply String.app_inj in Heq. apply String.app_inj in Heq.
  now apply str_inj.
Qed.

(** The template's four fields are filled in order: table, path, year, role. *)
Lemma format_template t s3 y role :
  format template [t +:+ "_" +:+ y; s3; y; role] =
  Some (select_columns +:+ "redshift." +:+ t +:+ "_" +:+ y +:+ line "')" +:+
        "            TO '" +:+ s3 +:+ "/" +:+ y +:+ line "/'" +:+
        "            IAM_ROLE '" +:+ role +:+ line "'" +:+ unload_options).
Proof.
  cbn. rewrite !string_app_assoc. reflexivity.
Qed.

Lemma range_length start stop : length (range start stop) = Z.to_nat (stop - start).
Proof. unfold range. now rewrite length_map, length_seq. Qed.

Lemma range_empty start stop : (stop <= start)%Z -> range start stop = [].
Proof.
  intros H. unfold range. replace (Z.to_nat (stop - start)) with 0%nat by lia.
  reflexivity.
Qed.

Lemma range_nth start stop i :
  (i < Z.to_nat (stop - start))%nat ->
  nth_error (range start stop) i = Some (start + Z.of_nat i)%Z.
Proof.
  intros H. unfold range.
  rewrite nth_error_map, nth_error_seq.
  destruct (Nat.ltb_spec i (Z.to_nat (stop - start))); [reflexivity | lia].
Qed.

Lemma range_In start stop y :
  In y (range start stop) <-> (start <= y < stop)%Z.
Proof.
  unfold range. rewrite in_map_iff. split.
  - intros (i & <- & Hi). apply in_seq in Hi. lia.
  - intros Hy. exists (Z.to_nat (y - start)). split; [lia |].
    apply in_seq. lia.
Qed.

(** One turn of the loop body: the statement of that year is printed, and
    nothing else changes. *)
Lemma loop_body prefix s3 role year w :
  (statement <- format_or_raise template
                  [prefix +:+ "_" +:+ str year; s3; str year; role] ;;
   print statement) w =
  (Returns tt,
   mkWorld (stdout w ++ [expected_statement prefix s3 role year]) (sessions w)).
Proof.
  unfold bind, format_or_raise. rewrite format_template. reflexivity.
Qed.

Lemma for_each_prints prefix s3 role years w :
  for_each years (fun year =>
    statement <- format_or_raise template
                   [prefix +:+ "_" +:+ str year; s3; str year; role] ;;
    print statement) w =
  (Returns tt,
   mkWorld (stdout w ++ map (expected_statement prefix s3 role) years)
     (sessions w)).
Proof.
  revert w. induction years as [| y years IH]; intros w.
  - simpl. unfold ret. rewrite app_nil_r. now destruct w.
  - cbn [for_each]. unfold bind at 1. rewrite loop_body.
    rewrite IH. cbn [stdout sessions map]. now rewrite <- app_assoc.
Qed.

(** C9. For every session, table-name prefix, pair of years, S3 path and
    role, [unload_redshift_table] returns normally after printing one UNLOAD
    statement per year of [start_year .. end_year], in order, each one
    selecting from [redshift.<prefix>_<year>] into [<s3_path>/<year>/], and
    then the line [Done.]; that is [end_year - start_year + 1] statements
    when [start_year <= end_year] and none when [start_year > end_year].
    No statement is executed and nothing is committed: every database
    session is as it was before the call. *)
Theorem unload_redshift_table_prints_only
    (session : nat) (prefix : string) (start_year end_year : Z)
    (s3_path iam_role : string) (w : World) :
  let years := range start_year (end_year + 1) in
  let '(result, w') :=
    unload_redshift_table session prefix start_year end_year s3_path iam_role w in
  result = Returns tt /\
  stdout w' =
    stdout w ++ map (expected_statement prefix s3_path iam_role) years
             ++ ["Done."] /\
  sessions w' = sessions w /\
  ((start_year <= end_year)%Z ->
     Z.of_nat (length years) = (end_year - start_year + 1)%Z /\
     forall i, (i < length years)%nat ->
       nth_error years i = Some (start_year + Z.of_nat i)%Z) /\
  ((start_year > end_year)%Z -> years = [] /\ stdout w' = stdout w ++ ["Done."]).
Proof.
  intros years. unfold unload_redshift_table.
  unfold bind at 1. rewrite for_each_prints. unfold print.
  cbn [stdout sessions]. fold years.
  split; [reflexivity |].
  split; [now rewrite <- app_assoc |].
  split; [reflexivity |].
  split.
  - intros Hle. subst years. rewrite range_length. split; [lia |].
    intros i Hi. now apply range_nth.
  - intros Hgt. subst years. rewrite range_empty by lia.
    cbn [map]. now rewrite app_nil_r.
Qed.

Lemma unload_redshift_table_prints_only_witness :
  let w := mkWorld [] {[ 0%nat := mkSession [] [] ]} in
  let w' := snd (unload_redshift_table 0 "amazon_reviews_tsv" 2011 2015
                   "s3://bucket/amazon-reviews-pds/parquet-from-redshift"
                   "arn:aws:iam::000000000000:role/redshift" w) in
  length (stdout w') = 6%nat /\
  sessions w' = sessions w /\
  Z.of_nat (length (range 2011 (2015 + 1))) = 5%Z.
Proof.
  intros w w'.
  pose proof (unload_redshift_table_prints_only 0 "amazon_reviews_tsv" 2011 2015
                "s3://bucket/amazon-reviews-pds/parquet-from-redshift"
                "arn:aws:iam::000000000000:role/redshift" w) as H.
  cbv zeta in H.
  destruct (unload_redshift_table 0 "amazon_reviews_tsv" 2011 2015
              "s3://bucket/amazon-reviews-pds/parquet-from-redshift"
              "arn:aws:iam::000000000000:role/redshift" w) as [r w0] eqn:E.
  destruct H as (_ & Hout & Hses & Hyears & _).
  subst w'. cbn [snd]. rewrite Hout, Hses.
  split; [reflexivity |]. split; [reflexivity |].
  apply Hyears. lia.
Defined.

End RedshiftFacts.

(** ** [hpo_report] *)

Module HpoFacts.
Import Hpo.

Section SortRowsFacts.
Context {A : Type} (before : A -> A -> bool).

Lemma insert_row_perm r l : Permutation (insert_row before r l) (r :: l).
Proof.
  induction l as [| r' l IH]; simpl; [reflexivity |].
  destruct (before r r'); [reflexivity |].
  rewrite IH. apply perm_swap.
Qed.

Lemma sort_rows_perm l : Permutation (sort_rows before l) l.
Proof.
  induction l as [| r l IH]; simpl; [reflexivity |].
  rewrite insert_row_perm. now constructor.
Qed.

Lemma sort_rows_length l : length (sort_rows before l) = length l.
Proof. apply Permutation_length, sort_rows_perm. Qed.

Hypothesis before_total : forall a b, before a b = true \/ before b a = true.
Hypothesis before_trans :
  forall a b c, before a b = true -> before b c = true -> before a c = true.

Lemma insert_row_sorted r l :
  StronglySorted (fun a b => before a b = true) l ->
  StronglySorted (fun a b => before a b = true) (insert_row before r l).
Proof.
  induction 1 as [| r' l Hs IH Hall]; simpl.
  - repeat constructor.
  - destruct (before r r') eqn:E.
    + constructor; [now constructor |].
      constructor; [assumption |].
      eapply Forall_impl; [exact Hall |]. intros c Hc. simpl in Hc. eauto.
    + constructor; [assumption |].
      eapply Permutation_Forall; [symmetry; apply insert_row_perm |].
      constructor; [| assumption].
      destruct (before_total r r') as [H | H]; [congruence | assumption].
Qed.

Lemma sort_rows_sorted l :
  StronglySorted (fun a b => before a b = true) (sort_rows before l).
Proof.
  induction l as [| r l IH]; simpl; [constructor | now apply insert_row_sorted].
Qed.

(** The stable sort is one of the sorts pandas may run. *)
Lemma sort_rows_sorts_by : sorts_by before (sort_rows before).
Proof. intros l. split; [apply sort_rows_perm | apply sort_rows_sorted]. Qed.

End SortRowsFacts.

(** A list sorted by [<=] on a key and a list strictly sorted on the same
    key, with the same rows, are the same list. *)
Lemma sorted_unique {A : Type} (key : A -> Z) (s t : list A) :
  StronglySorted (fun a b => (key a <= key b)%Z) s ->
  StronglySorted (fun a b => (key a < key b)%Z) t ->
  Permutation s t ->
  s = t.
Proof.
  intros Hs. revert t. induction Hs as [| a s Hs IH Ha]; intros t Ht Hp.
  - apply Permutation_nil in Hp. now subst.
  - destruct Ht as [| b t Ht Hb].
    + symmetry in Hp. now apply Permutation_nil in Hp.
    + assert (a = b) as ->.
      { assert (In a (b :: t)) as [Hab | Hat]
          by (eapply Permutation_in; [exact Hp | now left]); [now subst |].
        assert (In b (a :: s)) as [Hba | Hbs]
          by (eapply Permutation_in; [symmetry; exact Hp | now left]); [now subst |].
        rewrite List.Forall_forall in Ha, Hb.
        specialize (Ha _ Hbs). specialize (Hb _ Hat). simpl in *. lia. }
      f_equal. apply IH; [assumption |]. now apply Permutation_cons_inv in Hp.
Qed.

Lemma StronglySorted_snoc {A : Type} (R : A -> A -> Prop) l x :
  StronglySorted R l -> Forall (fun y => R y x) l -> StronglySorted R (l ++ [x]).
Proof.
  induction 1 as [| a l Hs IH Ha]; intros Hx; simpl.
  - repeat constructor.
  - inversion Hx; subst. constructor; [now apply IH |].
    apply Forall_app. split; [assumption | now repeat constructor].
Qed.

Lemma StronglySorted_rev {A : Type} (R : A -> A -> Prop) l :
  StronglySorted R l -> StronglySorted (fun a b => R b a) (rev l).
Proof.
  induction 1 as [| a l Hs IH Ha]; simpl; [constructor |].
  apply StronglySorted_snoc; [assumption |].
  rewrite List.Forall_forall in *. intros y Hy. apply Ha. now apply in_rev.
Qed.

Lemma StronglySorted_rev_iff {A : Type} (R : A -> A -> Prop) l :
  StronglySorted R (rev l) <-> StronglySorted (fun a b => R b a) l.
Proof.
  split; intros H.
  - apply StronglySorted_rev in H. now rewrite rev_involutive in H.
  - now apply (StronglySorted_rev (fun a b => R b a)).
Qed.

Lemma StronglySorted_weaken {A : Type} (R R' : A -> A -> Prop) l :
  (forall a b, R a b -> R' a b) -> StronglySorted R l -> StronglySorted R' l.
Proof.
  intros HR. induction 1 as [| a l Hs IH Ha]; constructor; [assumption |].
  eapply Forall_impl; [exact Ha | auto].
Qed.

Lemma StronglySorted_map {A B : Type} (f : A -> B) (R : B -> B -> Prop) l :
  StronglySorted (fun a b => R (f a) (f b)) l <-> StronglySorted R (map f l).
Proof.
  split.
  - induction 1 as [| a l Hs IH Ha]; simpl; constructor; [assumption |].
    rewrite List.Forall_forall in *. intros y Hy.
    apply in_map_iff in Hy as (x & <- & Hx). auto.
  - induction l as [| a l IH]; simpl; intros Hs; [constructor |].
    inversion Hs as [| ? ? Hs' Ha]; subst. constructor; [auto |].
    rewrite List.Forall_forall in *. intros x Hx. apply Ha. now apply in_map.
Qed.

(** *** The two orders *)

Lemma by_job_id_total a b : by_job_id a b = true \/ by_job_id b a = true.
Proof. unfold by_job_id. lia. Qed.

Lemma by_job_id_trans a b c :
  by_job_id a b = true -> by_job_id b c = true -> by_job_id a c = true.
Proof. unfold by_job_id. lia. Qed.

Lemma by_objective_descending_total a b :
  by_objective_descending a b = true \/ by_objective_descending b a = true.
Proof.
  unfold by_objective_descending.
  destruct (FinalObjectiveValue (trial a)) as [x |],
           (FinalObjectiveValue (trial b)) as [y |]; auto.
  rewrite !Qle_bool_iff. destruct (Qlt_le_dec x y) as [H | H]; auto.
  right. now apply Qlt_le_weak.
Qed.

Lemma by_objective_descending_trans a b c :
  by_objective_descending a b = true ->
  by_objective_descending b c = true ->
  by_objective_descending a c = true.
Proof.
  unfold by_objective_descending.
  destruct (FinalObjectiveValue (trial a)) as [x |],
           (FinalObjectiveValue (trial b)) as [y |],
           (FinalObjectiveValue (trial c)) as [z |]; auto; try discriminate.
  rewrite !Qle_bool_iff. intros H1 H2. now apply Qle_trans with y.
Qed.

Lemma stable_sort_by_objective :
  sorts_by by_objective_descending (sort_rows by_objective_descending).
Proof.
  apply sort_rows_sorts_by;
    [apply by_objective_descending_total | apply by_objective_descending_trans].
Qed.

Lemma stable_sort_by_job_id : sorts_by by_job_id (sort_rows by_job_id).
Proof.
  apply sort_rows_sorts_by; [apply by_job_id_total | apply by_job_id_trans].
Qed.

Lemma sorted_by_job_id sort l :
  sorts_by by_job_id sort ->
  StronglySorted (fun a b => (job_id a <= job_id b)%Z) (sort l).
Proof.
  intros Hsort. eapply StronglySorted_weaken; [| apply Hsort].
  intros a b Hab. unfold by_job_id in Hab. simpl in Hab. lia.
Qed.

(** *** The data frame and its index *)

Lemma dataframe_rows summaries :
  rows (dataframe summaries) = enumerate_from 0 summaries.
Proof. reflexivity. Qed.

Lemma dataframe_columns t rest :
  columns (dataframe (t :: rest)) = trial_columns.
Proof. reflexivity. Qed.

Lemma enumerate_from_trial i l : map trial (enumerate_from i l) = l.
Proof.
  revert i. induction l as [| t l IH]; intros i; simpl; [reflexivity |].
  now rewrite IH.
Qed.

Lemma enumerate_from_length i l : length (enumerate_from i l) = length l.
Proof. now rewrite <- (length_map trial), enumerate_from_trial. Qed.

Lemma enumerate_from_index i l r :
  In r (enumerate_from i l) -> (i <= index r < i + length l)%nat.
Proof.
  revert i. induction l as [| t l IH]; intros i; simpl; [tauto |].
  intros [<- | Hr]; [simpl; lia |]. apply IH in Hr. lia.
Qed.

(** In the order of the data frame the job ids go strictly down. *)
Lemma job_id_descending n i l :
  StronglySorted (fun a b => (job_id b < job_id a)%Z)
    (map (with_job_id n) (enumerate_from i l)).
Proof.
  revert i. induction l as [| t l IH]; intros i; simpl; constructor; [apply IH |].
  rewrite List.Forall_forall. intros y Hy.
  apply in_map_iff in Hy as (r & <- & Hr).
  apply enumerate_from_index in Hr. simpl. lia.
Qed.

Lemma job_id_reversed i l :
  rev (map (fun r => job_id (with_job_id (i + length l) r)) (enumerate_from i l)) =
  map Z.of_nat (seq 1 (length l)).
Proof.
  revert i. induction l as [| t l IH]; intros i; [reflexivity |].
  cbn [enumerate_from map rev length].
  replace (i + S (length l))%nat with (S i + length l)%nat by lia.
  rewrite IH, seq_S, map_app. cbn [map with_job_id job_id index].
  do 2 f_equal. lia.
Qed.

(** Whatever order the first sort leaves the rows in (its ties, its handling
    of missing values, its algorithm), and whichever way the second sort
    works, the outcome is the same: [job_id] is computed from the label
    alone, the job ids are pairwise different, and so one order is sorted. *)
Lemma job_id_order_unique summaries rows result :
  Permutation rows (enumerate_from 0 summaries) ->
  Permutation result (assign_job_id rows) ->
  StronglySorted (fun a b => (job_id a <= job_id b)%Z) result ->
  result = rev (map (with_job_id (length summaries)) (enumerate_from 0 summaries)).
Proof.
  intros Hrows Hresult Hsorted.
  assert (Hlen : length rows = length summaries).
  { rewrite (Permutation_length Hrows). apply enumerate_from_length. }
  unfold assign_job_id in Hresult. rewrite Hlen in Hresult.
  apply (sorted_unique job_id); [assumption | |].
  - apply (StronglySorted_rev (fun a b => (job_id b < job_id a)%Z)).
    apply job_id_descending.
  - rewrite Hresult, <- Permutation_rev. now apply Permutation_map.
Qed.

(** *** The report *)

Lemma hpo_report_with_empty sort_objective sort_job_id :
  hpo_report_with sort_objective sort_job_id [] = KeyError "FinalObjectiveValue".
Proof. reflexivity. Qed.

(** The report of a listing that is not empty is the data frame upside
    down, under any sort that keeps the rows and any sort by [job_id]. *)
Lemma hpo_report_with_reversed sort_objective sort_job_id t rest :
  (forall rows, Permutation (sort_objective rows) rows) ->
  sorts_by by_job_id sort_job_id ->
  hpo_report_with sort_objective sort_job_id (t :: rest) =
  Value (mkFrame (trial_columns ++ ["job_id"])
           (rev (map (with_job_id (length (t :: rest)))
                     (enumerate_from 0 (t :: rest))))).
Proof.
  intros Hobjective Hjob.
  unfold hpo_report_with, sort_values_with.
  rewrite dataframe_columns, dataframe_rows.
  change (str_in "FinalObjectiveValue" trial_columns) with true.
  cbn [cell_bind]. unfold set_job_id. cbn [columns rows].
  change (str_in "job_id" (trial_columns ++ ["job_id"])) with true.
  cbv iota. do 2 f_equal.
  apply (job_id_order_unique (t :: rest)
           (sort_objective (enumerate_from 0 (t :: rest)))).
  - apply Hobjective.
  - apply Hjob.
  - now apply sorted_by_job_id.
Qed.

Lemma hpo_report_reversed t rest :
  hpo_report (t :: rest) =
  Value (mkFrame (trial_columns ++ ["job_id"])
           (rev (map (with_job_id (length (t :: rest)))
                     (enumerate_from 0 (t :: rest))))).
Proof.
  apply hpo_report_with_reversed;
    [apply sort_rows_perm | apply stable_sort_by_job_id].
Qed.

Lemma reversed_trials n summaries :
  map report_trial (rev (map (with_job_id n) (enumerate_from 0 summaries))) =
  rev summaries.
Proof.
  rewrite map_rev, map_map. f_equal. cbn [with_job_id report_trial].
  apply enumerate_from_trial.
Qed.

Lemma reversed_job_ids summaries :
  map job_id
    (rev (map (with_job_id (length summaries)) (enumerate_from 0 summaries))) =
  map Z.of_nat (seq 1 (length summaries)).
Proof. rewrite map_rev, map_map. apply (job_id_reversed 0). Qed.

Lemma reversed_strictly_sorted n summaries :
  StronglySorted (fun a b => (job_id a < job_id b)%Z)
    (rev (map (with_job_id n) (enumerate_from 0 summaries))).
Proof.
  apply (StronglySorted_rev (fun a b => (job_id b < job_id a)%Z)).
  apply job_id_descending.
Qed.

Example finished_search_report :
  hpo_report finished_search =
  Value (mkFrame (trial_columns ++ ["job_id"])
           [ mkReportRow 4 (mkTrial "pt-bert-001" Completed (5 # 100000) (Some (91 # 100)%Q) 1) 1;
             mkReportRow 3 (mkTrial "pt-bert-002" Stopped (1 # 100000) (Some (80 # 100)%Q) 2) 2;
             mkReportRow 2 (mkTrial "pt-bert-003" Completed (6 # 100000) (Some (91 # 100)%Q) 3) 3;
             mkReportRow 1 (mkTrial "pt-bert-004" Failed (41 # 100000) None 4) 4;
             mkReportRow 0 (mkTrial "pt-bert-005" Completed (3 # 100000) (Some (88 # 100)%Q) 5) 5 ]).
Proof. reflexivity. Qed.

(** C6 (amended). The report cell raises [KeyError] on an empty listing. On any other listing the report holds one (learning rate,
    objective value) pair for every trial the tuning service lists, whatever
    the trial's status; its rows are numbered 1, 2, ... by [job_id], the
    notebook's "training job order index", and are the listing in reverse
    order, whatever objective values the trials reached and whichever sorts
    pandas runs. The report is therefore in submission order if and only if
    the service lists the trials newest first. *)
Theorem hpo_report_reverses_listing :
  hpo_report [] = KeyError "FinalObjectiveValue" /\
  forall (t : Trial) (rest : list Trial),
    let summaries := t :: rest in
    exists report,
      hpo_report summaries = Value report /\
      pairs report =
        rev (map (fun t => (learning_rate t, FinalObjectiveValue t)) summaries) /\
      map report_trial (rows report) = rev summaries /\
      map job_id (rows report) = map Z.of_nat (seq 1 (length summaries)) /\
      (StronglySorted
         (fun a b => (CreationTime (report_trial a) < CreationTime (report_trial b))%nat)
         (rows report) <->
       StronglySorted (fun a b => (CreationTime b < CreationTime a)%nat) summaries) /\
      (forall sort_objective sort_job_id,
         sorts_by by_objective_descending sort_objective ->
         sorts_by by_job_id sort_job_id ->
         hpo_report_with sort_objective sort_job_id summaries = Value report).
Proof.
  split; [reflexivity |].
  intros t rest summaries. subst summaries.
  eexists. split; [apply hpo_report_reversed |].
  cbn [rows].
  assert (Htrials :
    map report_trial
      (rev (map (with_job_id (length (t :: rest))) (enumerate_from 0 (t :: rest)))) =
    rev (t :: rest)) by apply reversed_trials.
  split; [| split; [| split; [| split]]].
  - unfold pairs. cbn [rows].
    rewrite <- (map_map report_trial
                  (fun t => (learning_rate t, FinalObjectiveValue t))).
    rewrite Htrials. apply map_rev.
  - exact Htrials.
  - apply reversed_job_ids.
  - rewrite (StronglySorted_map report_trial
               (fun a b => (CreationTime a < CreationTime b)%nat)).
    rewrite Htrials. apply StronglySorted_rev_iff.
  - intros sort_objective sort_job_id Hobjective Hjob.
    apply hpo_report_with_reversed; [| assumption].
    intros l. apply Hobjective.
Qed.

Lemma hpo_report_reverses_listing_witness :
  exists report,
    hpo_report finished_search = Value report /\
    pairs report =
      [ ((5 # 100000)%Q, Some (91 # 100)%Q); ((1 # 100000)%Q, Some (80 # 100)%Q);
        ((6 # 100000)%Q, Some (91 # 100)%Q); ((41 # 100000)%Q, None);
        ((3 # 100000)%Q, Some (88 # 100)%Q) ] /\
    StronglySorted
      (fun a b => (CreationTime (report_trial a) < CreationTime (report_trial b))%nat)
      (rows report).
Proof.
  destruct hpo_report_reverses_listing as [_ Hreport].
  destruct (Hreport (mkTrial "pt-bert-005" Completed (3 # 100000) (Some (88 # 100)%Q) 5)
              [ mkTrial "pt-bert-004" Failed (41 # 100000) None 4;
                mkTrial "pt-bert-003" Completed (6 # 100000) (Some (91 # 100)%Q) 3;
                mkTrial "pt-bert-002" Stopped (1 # 100000) (Some (80 # 100)%Q) 2;
                mkTrial "pt-bert-001" Completed (5 # 100000) (Some (91 # 100)%Q) 1 ])
    as (report & Hvalue & Hpairs & _ & _ & Horder & _).
  exists report. split; [exact Hvalue |]. split; [exact Hpairs |].
  apply Horder. repeat constructor; simpl; lia.
Defined.

(** C6 (as stated) fails twice. The listing [finished_search] has three
    trials with status [Completed], and its report has five pairs. The same
    trials listed oldest first give a report that starts with the trial
    submitted last. *)
Lemma hpo_report_counts_all_and_can_reverse_submission :
  (exists report,
     hpo_report finished_search = Value report /\
     length (pairs report) = 5%nat /\
     length (List.filter (fun t => is_completed (TrainingJobStatus t))
               finished_search) = 3%nat) /\
  (exists report,
     hpo_report (rev finished_search) = Value report /\
     map CreationTime (rev finished_search) = [1; 2; 3; 4; 5]%nat /\
     map (fun r => CreationTime (report_trial r)) (rows report) =
       [5; 4; 3; 2; 1]%nat /\
     ~ StronglySorted
         (fun a b => (CreationTime (report_trial a) < CreationTime (report_trial b))%nat)
         (rows report)).
Proof.
  split.
  - eexists. split; [reflexivity |]. split; reflexivity.
  - eexists. split; [reflexivity |]. split; [reflexivity |].
    split; [reflexivity |].
    intros Hsorted. inversion Hsorted as [| ? ? _ Hfirst]; subst.
    inversion Hfirst as [| ? ? Hlt _]; subst. simpl in Hlt. lia.
Qed.

End HpoFacts.

(** ** Metric extraction *)

Module MetricFacts.
Import Metric.

(** *** The matcher against the language of the pattern *)

Section StarLoop.
Variable step : list ascii -> option (list ascii) -> list thread.

Lemma star_loop_self fuel s g : In (s, g) (star_loop step fuel s g).
Proof.
  destruct fuel; simpl; [now left |].
  apply in_or_app. right. now left.
Qed.

(** Fuel beyond the length of the input changes nothing: every turn of the
    loop consumes a character. *)
Lemma star_loop_enough fuel1 : forall fuel2 s g,
  (length s <= fuel1)%nat -> (length s <= fuel2)%nat ->
  star_loop step fuel1 s g = star_loop step fuel2 s g.
Proof.
  assert (Hstuck : forall fuel s g, length s = 0%nat ->
            star_loop step fuel s g = [(s, g)]).
  { intros [| fuel] s g Hs; simpl; [reflexivity |].
    rewrite Hs.
    assert (Hnil : forall l : list thread,
              flat_map (fun t : thread =>
                 if (length (fst t) <? 0)%nat
                 then star_loop step fuel (fst t) (snd t) else []) l = []).
    { induction l as [| t l IH]; simpl; [reflexivity | exact IH]. }
    now rewrite Hnil. }
  induction fuel1 as [| fuel1 IH]; intros fuel2 s g H1 H2.
  - rewrite !Hstuck by lia. reflexivity.
  - destruct fuel2 as [| fuel2].
    + rewrite !Hstuck by lia. reflexivity.
    + simpl. f_equal. apply flat_map_ext. intros t.
      destruct (Nat.ltb_spec (length (fst t)) (length s)); [| reflexivity].
      apply IH; lia.
Qed.

End StarLoop.

Lemma star_loop_sound r step :
  (forall s g t, In t (step s g) -> exists m, s = m ++ fst t /\ matches r m) ->
  forall fuel s g t, In t (star_loop step fuel s g) ->
  exists m, s = m ++ fst t /\ matches (Star r) m.
Proof.
  intros Hstep. induction fuel as [| fuel IH]; intros s g t Ht; simpl in Ht.
  - destruct Ht as [<- | []]. exists []. split; [reflexivity | constructor].
  - apply in_app_or in Ht as [Ht | [<- | []]].
    + apply in_flat_map in Ht as (t1 & Ht1 & Ht).
      destruct (length (fst t1) <? length s)%nat; [| destruct Ht].
      apply Hstep in Ht1 as (m1 & -> & Hm1).
      apply IH in Ht as (m2 & Heq & Hm2).
      exists (m1 ++ m2). split; [| now constructor].
      rewrite Heq. now rewrite app_assoc.
    + exists []. split; [reflexivity | constructor].
Qed.

(** Every thread is a suffix of the input, and what was consumed is in the
    language of the pattern. *)
Lemma run_sound r : forall s g t,
  In t (run r s g) -> exists m, s = m ++ fst t /\ matches r m.
Proof.
  induction r as [| c | ranges | r1 IH1 r2 IH2 | r1 IH1 r2 IH2 | r IH | r IH];
    intros s g t Ht; simpl in Ht.
  - destruct Ht as [<- | []]. exists []. split; [reflexivity | constructor].
  - destruct s as [| c' s]; [destruct Ht |].
    destruct (Ascii.eqb_spec c c') as [<- |]; [| destruct Ht].
    destruct Ht as [<- | []]. exists [c]. split; [reflexivity | constructor].
  - destruct s as [| c' s]; [destruct Ht |].
    destruct (in_class ranges c') eqn:E; [| destruct Ht].
    destruct Ht as [<- | []]. exists [c']. split; [reflexivity | now constructor].
  - apply in_flat_map in Ht as (t1 & Ht1 & Ht).
    apply IH1 in Ht1 as (m1 & -> & Hm1).
    apply IH2 in Ht as (m2 & Heq & Hm2).
    exists (m1 ++ m2). split; [| now constructor].
    rewrite Heq. now rewrite app_assoc.
  - apply in_app_or in Ht as [Ht | Ht].
    + apply IH1 in Ht as (m & -> & Hm). exists m. split; [reflexivity | now constructor].
    + apply IH2 in Ht as (m & -> & Hm). exists m.
      split; [reflexivity | now apply MAltR].
  - eapply star_loop_sound; [| exact Ht]. exact IH.
  - apply in_map_iff in Ht as (t1 & <- & Ht1).
    apply IH in Ht1 as (m & -> & Hm). exists m.
    split; [reflexivity | now constructor].
Qed.

(** Every word of the language at the start of the input gives a thread. *)
Lemma run_complete r m :
  matches r m ->
  forall rest g, exists g', In (rest, g') (run r (m ++ rest) g).
Proof.
  induction 1 as [| c | ranges c Hc | r1 r2 s1 s2 H1 IH1 H2 IH2
                  | r1 r2 s H IH | r1 r2 s H IH | r
                  | r s1 s2 H1 IH1 H2 IH2 | r s H IH];
    intros rest g.
  - exists g. now left.
  - exists g. simpl. rewrite Ascii.eqb_refl. now left.
  - exists g. simpl. rewrite Hc. now left.
  - destruct (IH1 (s2 ++ rest) g) as (g1 & Hg1).
    destruct (IH2 rest g1) as (g2 & Hg2).
    exists g2. simpl. rewrite <- app_assoc.
    apply in_flat_map. exists (s2 ++ rest, g1). split; assumption.
  - destruct (IH rest g) as (g' & Hg'). exists g'. simpl.
    apply in_or_app. now left.
  - destruct (IH rest g) as (g' & Hg'). exists g'. simpl.
    apply in_or_app. now right.
  - exists g. apply star_loop_self.
  - destruct s1 as [| c s1]; [apply IH2 |].
    destruct (IH1 (s2 ++ rest) g) as (g1 & Hg1).
    destruct (IH2 rest g1) as (g2 & Hg2).
    exists g2. rewrite <- app_assoc.
    change (run (Star r) ((c :: s1) ++ s2 ++ rest) g)
      with (star_loop (run r) (S (length (s1 ++ s2 ++ rest)))
              ((c :: s1) ++ s2 ++ rest) g).
    cbn [star_loop]. apply in_or_app. left.
    apply in_flat_map. exists (s2 ++ rest, g1). split; [assumption |].
    cbn [fst snd].
    replace (length (s2 ++ rest) <? length ((c :: s1) ++ s2 ++ rest))%nat
      with true
      by (symmetry; apply Nat.ltb_lt; simpl; rewrite !length_app; lia).
    change (run (Star r) (s2 ++ rest) g1)
      with (star_loop (run r) (length (s2 ++ rest)) (s2 ++ rest) g1) in Hg2.
    erewrite star_loop_enough; [exact Hg2 | | lia].
    rewrite !length_app. lia.
  - destruct (IH rest g) as (g' & Hg'). simpl.
    eexists. apply in_map_iff. exists (rest, g'). split; [reflexivity | assumption].
Qed.

(** [search] finds a match exactly when the pattern occurs in the text. *)
Lemma search_Some_occurs r text g :
  search r text = Some g -> occurs r text.
Proof.
  induction text as [| c text IH]; simpl.
  - destruct (run r [] None) as [| t l] eqn:E; [discriminate |].
    intros _. destruct (run_sound r [] None t) as (m & Heq & Hm);
      [rewrite E; now left |].
    exists [], m, (fst t). now split.
  - destruct (run r (c :: text) None) as [| t l] eqn:E.
    + intros H. destruct (IH H) as (b & m & a & -> & Hm).
      exists (c :: b), m, a. now split.
    + intros _. destruct (run_sound r (c :: text) None t) as (m & Heq & Hm);
        [rewrite E; now left |].
      exists [], m, (fst t). now split.
Qed.

Lemma occurs_search_Some r text :
  occurs r text -> exists g, search r text = Some g.
Proof.
  intros (b & m & a & -> & Hm).
  induction b as [| c b IH].
  - destruct (run_complete r m Hm a None) as (g' & Hg').
    simpl app in *.
    destruct (m ++ a) as [| c s] eqn:E; simpl;
      destruct (run r _ None) as [| t l]; try destruct Hg'; eauto.
  - simpl. destruct (run r (c :: b ++ m ++ a) None) as [| t l]; eauto.
Qed.

Lemma search_None_iff r text : search r text = None <-> ~ occurs r text.
Proof.
  split.
  - intros Hnone Hocc. apply occurs_search_Some in Hocc as (g & Hg). congruence.
  - intros Hno. destruct (search r text) as [g |] eqn:E; [| reflexivity].
    destruct Hno. eapply search_Some_occurs. exact E.
Qed.

(** *** Literal prefixes and the greedy class loop *)

Lemma text_of_app s1 s2 : text_of (s1 +:+ s2) = text_of s1 ++ text_of s2.
Proof.
  unfold text_of. induction s1 as [| c s1 IH]; [reflexivity |].
  change (String c s1 +:+ s2) with (String c (s1 +:+ s2)).
  simpl. now rewrite IH.
Qed.

Lemma run_lit k rest g : run (lit k) (k ++ rest) g = [(rest, g)].
Proof.
  induction k as [| c k IH]; [reflexivity |].
  cbn [lit run app]. rewrite Ascii.eqb_refl. cbn [flat_map fst snd].
  now rewrite IH.
Qed.

Lemma matches_lit k m : matches (lit k) m <-> m = k.
Proof.
  split.
  - revert m. induction k as [| c k IH]; intros m Hm; simpl in Hm.
    + now inversion Hm.
    + inversion Hm as [| | | ? ? s1 s2 H1 H2 | | | | |]; subst.
      inversion H1; subst. apply IH in H2. now subst.
  - intros ->. induction k as [| c k IH]; simpl; [constructor |].
    change (c :: k) with ([c] ++ k). constructor; [constructor | assumption].
Qed.

Lemma class_loop_greedy ranges : forall d rest g,
  forallb (in_class ranges) d = true ->
  match rest with [] => true | c :: _ => negb (in_class ranges c) end = true ->
  exists others,
    run (Star (Cls ranges)) (d ++ rest) g = (rest, g) :: others.
Proof.
  induction d as [| c d IH]; intros rest g Hd Hrest.
  - exists []. cbn [app run].
    destruct rest as [| c rest]; [reflexivity |].
    cbn [length star_loop run]. apply negb_true_iff in Hrest.
    now rewrite Hrest.
  - cbn [forallb] in Hd. apply andb_true_iff in Hd as (Hc & Hd).
    destruct (IH rest g Hd Hrest) as (others & Hothers).
    cbn [app run length star_loop]. rewrite Hc. cbn [flat_map fst snd].
    replace (length (d ++ rest) <? S (length (d ++ rest)))%nat with true
      by (symmetry; apply Nat.ltb_lt; lia).
    cbn [run] in Hothers. rewrite Hothers.
    eexists. rewrite app_nil_r. reflexivity.
Qed.

Lemma firstn_consumed {A : Type} (d rest : list A) :
  firstn (length (d ++ rest) - length rest) (d ++ rest) = d.
Proof.
  rewrite length_app.
  replace (length d + length rest - length rest)%nat with (length d) by lia.
  rewrite firstn_app, Nat.sub_diag, firstn_all. cbn [firstn]. apply app_nil_r.
Qed.

(** At the key, the preferred thread of [key([0-9\.]+)] has consumed the
    whole run of digits and points, and the group holds that run. *)
Lemma key_then_numeral key d rest :
  d <> [] ->
  digits_and_points d = true ->
  numeral_ends rest = true ->
  exists others,
    run (Cat (lit key) (Grp (Plus digit_or_point))) (key ++ d ++ rest) None =
    (rest, Some d) :: others.
Proof.
  intros Hne Hd Hrest. destruct d as [| c d]; [contradiction |].
  cbn [forallb digits_and_points] in Hd. unfold digits_and_points in Hd.
  cbn [forallb] in Hd. apply andb_true_iff in Hd as (Hc & Hd).
  destruct (class_loop_greedy digit_or_point_ranges d rest None Hd Hrest)
    as (others & Hothers).
  cbn [run]. rewrite run_lit. cbn [flat_map fst snd]. rewrite app_nil_r.
  unfold Plus, digit_or_point. cbn [run app]. rewrite Hc.
  cbn [flat_map fst snd]. rewrite app_nil_r.
  cbn [run] in Hothers. rewrite Hothers. cbn [map fst].
  eexists. f_equal. f_equal. f_equal.
  apply (firstn_consumed (c :: d) rest).
Qed.

(** The language of [key([0-9\.]+)]: the key and then at least one digit or
    point. *)
Lemma key_then_numeral_language key m :
  matches (Cat (lit key) (Grp (Plus digit_or_point))) m ->
  exists c d, m = key ++ c :: d /\ in_class digit_or_point_ranges c = true.
Proof.
  intros Hm.
  inversion Hm as [| | | ? ? s1 s2 H1 H2 | | | | |]; subst.
  apply matches_lit in H1 as ->.
  inversion H2 as [| | | | | | | | ? ? H3]; subst.
  inversion H3 as [| | | ? ? s3 s4 H4 H5 | | | | |]; subst.
  inversion H4; subst. eauto.
Qed.

Lemma key_then_numeral_shortest key c :
  in_class digit_or_point_ranges c = true ->
  matches (Cat (lit key) (Grp (Plus digit_or_point))) (key ++ [c]).
Proof.
  intros Hc. constructor; [now apply matches_lit |].
  constructor. change [c] with ([c] ++ []).
  constructor; [now constructor | constructor].
Qed.

Lemma app_eq_prefix {A : Type} (c a b d : list A) :
  a ++ b = c ++ d -> (length c <= length a)%nat -> exists e, a = c ++ e.
Proof.
  revert a. induction c as [| x c IH]; intros a Heq Hlen.
  - now exists a.
  - destruct a as [| y a]; [simpl in Hlen; lia |].
    simpl in Heq. injection Heq as -> Heq.
    destruct (IH a Heq) as (e & ->); [simpl in Hlen; lia |].
    now exists e.
Qed.

(** A match that starts before the key of [before ++ key ++ ...] already
    shows in [before ++ key]: it needs the key and one more character. *)
Lemma search_skips_before key (before after : list ascii) :
  let r := Cat (lit key) (Grp (Plus digit_or_point)) in
  search r (before ++ key) = None ->
  search r (before ++ key ++ after) = search r (key ++ after).
Proof.
  intros r. induction before as [| x before IH]; [reflexivity |].
  cbn [app search].
  destruct (run r (x :: before ++ key) None) as [| t l] eqn:E; [| discriminate].
  intros Hnone.
  destruct (run r (x :: before ++ key ++ after) None) as [| t l] eqn:E';
    [now apply IH |].
  exfalso.
  destruct (run_sound r (x :: before ++ key ++ after) None t) as (m & Heq & Hm);
    [rewrite E'; now left |].
  apply key_then_numeral_language in Hm as (c & d & -> & Hc).
  destruct (app_eq_prefix (key ++ [c]) (x :: before ++ key) after (d ++ fst t))
    as (e & He).
  - rewrite <- !app_assoc. cbn [app]. rewrite <- !app_assoc in Heq.
    cbn [app] in Heq. rewrite <- Heq. now rewrite <- app_assoc.
  - cbn [length]. rewrite !length_app. cbn [length]. lia.
  - destruct (run_complete r (key ++ [c]) (key_then_numeral_shortest key c Hc)
                e None) as (g' & Hg').
    rewrite <- He, E in Hg'. destruct Hg'.
Qed.

(** *** [extractMetric] *)

Example extractMetric_squad_log :
  extractMetric squad_log squad_rule = Number 88.0493020797288%Q.
Proof. reflexivity. Qed.

Example extractMetric_two_points :
  extractMetric "{'f1_': 1.2.3}" glue_rule = Absent.
Proof. reflexivity. Qed.

Lemma extractMetric_miss rawLogText rule :
  ~ occurs (Regex rule) (text_of rawLogText) ->
  extractMetric rawLogText rule = Absent.
Proof.
  intros Hno. unfold extractMetric.
  apply search_None_iff in Hno. now rewrite Hno.
Qed.

Lemma extractMetric_hit rawLogText rule value :
  extractMetric rawLogText rule = Number value ->
  occurs (Regex rule) (text_of rawLogText).
Proof.
  unfold extractMetric.
  destruct (search (Regex rule) (text_of rawLogText)) as [g |] eqn:E;
    [| discriminate].
  intros _. eapply search_Some_occurs. exact E.
Qed.

(** The first match of [key([0-9\.]+)] in [before ++ key ++ d ++ after],
    when no match starts in [before]: the group is the run [d]. *)
Lemma search_numeral_after_key key before d after :
  let r := Cat (lit key) (Grp (Plus digit_or_point)) in
  search r (before ++ key) = None ->
  d <> [] ->
  digits_and_points d = true ->
  numeral_ends after = true ->
  search r (before ++ key ++ d ++ after) = Some (Some d).
Proof.
  intros r Hbefore Hne Hd Hafter. subst r.
  pose proof (search_skips_before key before (d ++ after)) as Hskip.
  cbv zeta in Hskip. rewrite (Hskip Hbefore).
  destruct (key_then_numeral key d after Hne Hd Hafter) as (others & Hrun).
  destruct (key ++ d ++ after) as [| c s];
    cbn [search]; now rewrite Hrun.
Qed.

(** C1 (as amended). With the GLUE rule ['f1_': ([0-9\.]+)]: when the text
    is [before ++ "'f1_': 0.894" ++ after], the pattern has no match that
    starts in [before], and [after] does not go on with a digit or a point,
    [extractMetric] returns 0.894; and on every text in which the pattern
    does not occur it returns absent. *)
Theorem extractMetric_f1 :
  (forall before after : string,
     ~ occurs glue_regex (text_of (before +:+ "'f1_': ")) ->
     numeral_ends (text_of after) = true ->
     extractMetric (before +:+ "'f1_': 0.894" +:+ after) glue_rule
       = Number 0.894%Q) /\
  (forall rawLogText : string,
     ~ occurs glue_regex (text_of rawLogText) ->
     extractMetric rawLogText glue_rule = Absent).
Proof.
  split.
  - intros before after Hbefore Hafter.
    apply search_None_iff in Hbefore.
    unfold extractMetric. cbn [Regex glue_rule].
    rewrite text_of_app in Hbefore.
    rewrite !text_of_app.
    change (text_of "'f1_': 0.894")
      with (text_of "'f1_': " ++ text_of "0.894").
    rewrite <- app_assoc.
    unfold glue_regex in *.
    rewrite (search_numeral_after_key (text_of "'f1_': ") (text_of before)
               (text_of "0.894") (text_of after) Hbefore);
      [reflexivity | discriminate | reflexivity | assumption].
  - intros rawLogText. apply (extractMetric_miss rawLogText glue_rule).
Qed.

Lemma extractMetric_f1_witness :
  extractMetric "{'f1_': 0.894}" glue_rule = Number 0.894%Q /\
  extractMetric "{'acc_and_f1_': 0.869}" glue_rule = Absent.
Proof.
  split.
  - apply (proj1 extractMetric_f1 "{" "}");
      [apply search_None_iff |]; reflexivity.
  - apply (proj2 extractMetric_f1). apply search_None_iff. reflexivity.
Defined.

(** C1 (as stated) fails on the log line the notebook quotes: the line
    contains ['f1_': 0.894], and the greedy group takes all of
    [0.8941176470588236]. *)
Lemma extractMetric_glue_log_takes_whole_numeral :
  (exists before after : string,
     glue_log = before +:+ "'f1_': 0.894" +:+ after) /\
  extractMetric glue_log glue_rule = Number 0.8941176470588236%Q /\
  extractMetric glue_log glue_rule <> Number 0.894%Q.
Proof.
  split; [| split].
  - exists "Evaluation result =  {'acc_': 0.8455882352941176, ",
           "1176470588236, 'acc_and_f1_': 0.8698529411764706}".
    reflexivity.
  - reflexivity.
  - discriminate.
Qed.

End MetricFacts.

(** ** More on [unload_redshift_table] *)

Lemma append_cons (c : ascii) (s t : string) :
  String c s +:+ t = String c (s +:+ t).
Proof. reflexivity. Qed.

Lemma append_nil_r (s : string) : s +:+ "" = s.
Proof.
  induction s as [| c s IH]; [reflexivity |].
  now rewrite append_cons, IH.
Qed.

Lemma append_length (s t : string) :
  String.length (s +:+ t) = (String.length s + String.length t)%nat.
Proof.
  induction s as [| c s IH]; [reflexivity |].
  rewrite append_cons. simpl. now rewrite IH.
Qed.

Lemma contains_char_app c s t :
  contains_char c (s +:+ t) = contains_char c s || contains_char c t.
Proof.
  induction s as [| c' s IH]; [reflexivity |].
  rewrite append_cons. simpl. rewrite IH. now rewrite orb_assoc.
Qed.

(** Two texts cut at the first [c] have the same parts. *)
Lemma separator_unique c a a' r r' :
  contains_char c a = false ->
  contains_char c a' = false ->
  a +:+ String c r = a' +:+ String c r' ->
  a = a' /\ r = r'.
Proof.
  revert a'. induction a as [| x a IH]; intros [| x' a'] Ha Ha' Heq.
  - simpl in Heq. injection Heq as ->. now split.
  - rewrite append_cons in Heq. simpl in Heq. injection Heq as <- _.
    simpl in Ha'. now rewrite Ascii.eqb_refl in Ha'.
  - rewrite append_cons in Heq. simpl in Heq. injection Heq as -> _.
    simpl in Ha. now rewrite Ascii.eqb_refl in Ha.
  - rewrite !append_cons in Heq. injection Heq as -> Heq.
    simpl in Ha, Ha'. apply orb_false_iff in Ha as (_ & Ha).
    apply orb_false_iff in Ha' as (_ & Ha').
    destruct (IH a' Ha Ha' Heq) as (-> & ->). now split.
Qed.

Module RedshiftMore.
Import Redshift RedshiftFacts.

(** [str(n)] is made of decimal digits and at most a sign. *)
Lemma str_chars c n :
  contains_char c "0123456789-" = false -> contains_char c (str n) = false.
Proof.
  intros Hc. simpl in Hc. rewrite !orb_false_iff in Hc.
  destruct Hc as (H0 & H1 & H2 & H3 & H4 & H5 & H6 & H7 & H8 & H9 & Hm & _).
  assert (Huint : forall d, contains_char c (NilEmpty.string_of_uint d) = false).
  { induction d; simpl; rewrite ?orb_false_iff; auto. }
  assert (Hzero : forall d, contains_char c (NilZero.string_of_uint d) = false).
  { intros [| d | d | d | d | d | d | d | d | d | d];
      try apply (Huint (_ _)); simpl; rewrite ?orb_false_iff; auto. }
  unfold str. destruct (Z.to_int n) as [d | d]; simpl.
  - apply Hzero.
  - rewrite Hm. apply Hzero.
Qed.

(** The statements of two years differ: the table name ends where the
    first quote after [redshift.<prefix>_] stands. *)
Lemma expected_statement_inj prefix s3 role a b :
  expected_statement prefix s3 role a = expected_statement prefix s3 role b ->
  a = b.
Proof.
  unfold expected_statement. intros Heq.
  do 4 apply String.app_inj in Heq.
  apply str_inj.
  assert (Ha : contains_char "'" (str a) = false)
    by (apply str_chars; reflexivity).
  assert (Hb : contains_char "'" (str b) = false)
    by (apply str_chars; reflexivity).
  match type of Heq with
  | _ +:+ line "')" +:+ ?x = _ +:+ line "')" +:+ ?y =>
      change (line "')" +:+ x) with (String "'" (String ")" (nl +:+ x))) in Heq;
      change (line "')" +:+ y) with (String "'" (String ")" (nl +:+ y))) in Heq
  end.
  now destruct (separator_unique _ _ _ _ _ Ha Hb Heq).
Qed.

Lemma range_cons a b : (a < b)%Z -> range a b = a :: range (a + 1) b.
Proof.
  intros Hlt. unfold range.
  replace (Z.to_nat (b - a)) with (S (Z.to_nat (b - (a + 1)))) by lia.
  cbn [seq map]. f_equal; [lia |].
  rewrite <- seq_shift, map_map. apply map_ext. intros i. lia.
Qed.

Lemma range_app a m b :
  (a <= m <= b)%Z -> range a b = range a m ++ range m b.
Proof.
  intros H. remember (Z.to_nat (m - a)) as n eqn:Hn.
  revert a H Hn. induction n as [| n IH]; intros a H Hn.
  - assert (a = m) as -> by lia. now rewrite (range_empty m m) by lia.
  - rewrite (range_cons a b), (range_cons a m) by lia.
    cbn [app]. f_equal. apply IH; lia.
Qed.

Lemma range_NoDup a b : List.NoDup (range a b).
Proof.
  unfold range. apply Finite.Injective_map_NoDup; [| apply seq_NoDup].
  intros i j Hij. lia.
Qed.

(** The whole run of the function, from any world. *)
Lemma unload_redshift_table_run session prefix a b s3 role w :
  unload_redshift_table session prefix a b s3 role w =
  (Returns tt,
   mkWorld (stdout w ++ map (expected_statement prefix s3 role) (range a (b + 1))
              ++ ["Done."])
     (sessions w)).
Proof.
  unfold unload_redshift_table. unfold bind at 1.
  rewrite for_each_prints. unfold print. cbn [stdout sessions].
  now rewrite <- app_assoc.
Qed.

(** X1. Between what was on standard output and the final [Done.], the call
    prints pairwise different statements, and the statement of a year is
    among them exactly when the year lies in [start_year .. end_year]. *)
Theorem unload_statements_distinct_and_in_range
    session prefix start_year end_year s3_path iam_role w :
  exists printed,
    stdout (snd (unload_redshift_table session prefix start_year end_year
                   s3_path iam_role w)) =
      stdout w ++ printed ++ ["Done."] /\
    List.NoDup printed /\
    forall year,
      In (expected_statement prefix s3_path iam_role year) printed <->
      (start_year <= year <= end_year)%Z.
Proof.
  exists (map (expected_statement prefix s3_path iam_role)
            (range start_year (end_year + 1))).
  rewrite unload_redshift_table_run. cbn [snd stdout].
  split; [reflexivity |]. split.
  - apply Finite.Injective_map_NoDup; [| apply range_NoDup].
    intros a b. apply expected_statement_inj.
  - intros year. rewrite in_map_iff. split.
    + intros (y & Heq & Hy). apply expected_statement_inj in Heq. subst y.
      apply range_In in Hy. lia.
    + intros Hy. exists year. split; [reflexivity |]. apply range_In. lia.
Qed.

(** X2. Unloading [start .. middle] and then [middle + 1 .. end] prints,
    apart from the [Done.] in between, what one call for [start .. end]
    prints, and leaves the sessions as that call does. *)
Theorem unload_in_two_calls
    session prefix start_year middle end_year s3_path iam_role w :
  (start_year <= middle + 1)%Z -> (middle <= end_year)%Z ->
  let first :=
    snd (unload_redshift_table session prefix start_year middle
           s3_path iam_role w) in
  let second :=
    snd (unload_redshift_table session prefix (middle + 1) end_year
           s3_path iam_role first) in
  let whole :=
    snd (unload_redshift_table session prefix start_year end_year
           s3_path iam_role w) in
  exists printed1 printed2,
    stdout second = stdout w ++ printed1 ++ ["Done."] ++ printed2 ++ ["Done."] /\
    stdout whole = stdout w ++ (printed1 ++ printed2) ++ ["Done."] /\
    sessions second = sessions whole.
Proof.
  intros H1 H2 first second whole. subst first second whole.
  rewrite !unload_redshift_table_run. cbn [snd stdout sessions].
  exists (map (expected_statement prefix s3_path iam_role)
            (range start_year (middle + 1))),
         (map (expected_statement prefix s3_path iam_role)
            (range (middle + 1) (end_year + 1))).
  split; [now rewrite <- !app_assoc |]. split; [| reflexivity].
  rewrite <- map_app, <- range_app by lia. reflexivity.
Qed.

Lemma unload_in_two_calls_witness :
  let w := mkWorld [] ∅ in
  let first := snd (unload_redshift_table 0 "t" 2011 2013 "s3://b" "role" w) in
  let second :=
    snd (unload_redshift_table 0 "t" (2013 + 1) 2015 "s3://b" "role" first) in
  let whole := snd (unload_redshift_table 0 "t" 2011 2015 "s3://b" "role" w) in
  exists printed1 printed2,
    stdout second = stdout w ++ printed1 ++ ["Done."] ++ printed2 ++ ["Done."] /\
    stdout whole = stdout w ++ (printed1 ++ printed2) ++ ["Done."] /\
    sessions second = sessions whole.
Proof.
  apply (unload_in_two_calls 0 "t" 2011 2013 2015 "s3://b" "role"
           (mkWorld [] ∅)); lia.
Defined.

End RedshiftMore.

(** ** The Redshift connection *)

Module RedshiftSetupFacts.
Import RedshiftSetup.

Lemma engine_url_text u p h port db :
  engine_url u p h port db =
  Some ("postgresql://" +:+ u +:+ ":" +:+ p +:+ "@" +:+ h +:+ ":" +:+ port
          +:+ "/" +:+ db).
Proof.
  unfold engine_url. cbn. now rewrite append_nil_r.
Qed.

(** X3. The URL is put together without quoting: an [@] in the password
    reads as the end of the password, and a colon in the user name as the
    end of the user name. The same URL then stands for other credentials. *)
Theorem engine_url_ambiguous u p x h port db :
  engine_url u (p +:+ "@" +:+ x) h port db =
    engine_url u p (x +:+ "@" +:+ h) port db /\
  engine_url (u +:+ ":" +:+ x) p h port db =
    engine_url u (x +:+ ":" +:+ p) h port db.
Proof.
  rewrite !engine_url_text. split; now rewrite !string_app_assoc.
Qed.

(** X4. When the user name and the host have no colon, the password no
    [@] and the port no slash, the URL determines all five parts. *)
Theorem engine_url_inj u p h port db u' p' h' port' db' :
  contains_char ":" u = false -> contains_char ":" u' = false ->
  contains_char "@" p = false -> contains_char "@" p' = false ->
  contains_char ":" h = false -> contains_char ":" h' = false ->
  contains_char "/" port = false -> contains_char "/" port' = false ->
  engine_url u p h port db = engine_url u' p' h' port' db' ->
  u = u' /\ p = p' /\ h = h' /\ port = port' /\ db = db'.
Proof.
  intros Hu Hu' Hp Hp' Hh Hh' Hport Hport'.
  rewrite !engine_url_text. intros [= Heq].
  apply String.app_inj in Heq.
  change (":" +:+ ?x) with (String ":" x) in Heq.
  destruct (separator_unique _ _ _ _ _ Hu Hu' Heq) as (-> & Heq1).
  change ("@" +:+ ?x) with (String "@" x) in Heq1.
  destruct (separator_unique _ _ _ _ _ Hp Hp' Heq1) as (-> & Heq2).
  change (":" +:+ ?x) with (String ":" x) in Heq2.
  destruct (separator_unique _ _ _ _ _ Hh Hh' Heq2) as (-> & Heq3).
  change ("/" +:+ ?x) with (String "/" x) in Heq3.
  destruct (separator_unique _ _ _ _ _ Hport Hport' Heq3) as (-> & ->).
  repeat split.
Qed.

Lemma engine_url_inj_witness :
  "awsuser" = "awsuser" /\ "Passw0rd" = "Passw0rd" /\
  "dsoaws.example.redshift.amazonaws.com" = "dsoaws.example.redshift.amazonaws.com" /\
  "5439" = "5439" /\ "dsoaws" = "dsoaws".
Proof.
  apply (engine_url_inj
           "awsuser" "Passw0rd" "dsoaws.example.redshift.amazonaws.com"
           "5439" "dsoaws"
           "awsuser" "Passw0rd" "dsoaws.example.redshift.amazonaws.com"
           "5439" "dsoaws"); reflexivity.
Defined.

(** X5. What the two subscripts of the credentials cell accept: a list
    whose first item is an object with a [username] and whose second item is
    an object with a [password], and nothing else. A single object raises
    [KeyError], a list of one object with a user name raises [IndexError],
    and a first object without [username] raises [KeyError]. *)
Theorem credentials_shape :
  (forall cred u p,
     credentials cred = Ok (u, p) <->
     exists first second rest,
       cred = JArray (JObject first :: JObject second :: rest) /\
       member "username" first = Some u /\
       member "password" second = Some p) /\
  (forall members, credentials (JObject members) = Err KeyError) /\
  (forall first u,
     member "username" first = Some u ->
     credentials (JArray [JObject first]) = Err IndexError) /\
  (forall first rest,
     member "username" first = None ->
     credentials (JArray (JObject first :: rest)) = Err KeyError).
Proof.
  split; [| split; [| split]].
  - intros cred u p. split.
    + unfold credentials.
      destruct cred as [| b | n | s | items | members]; cbn;
        try discriminate.
      * destruct (String.get 0 s); cbn; discriminate.
      * destruct items as [| first items]; cbn; [discriminate |].
        destruct first as [| | | | | first]; cbn; try discriminate.
        destruct (member "username" first) as [u0 |] eqn:Hu; cbn;
          [| discriminate].
        destruct items as [| second rest]; cbn; [discriminate |].
        destruct second as [| | | | | second]; cbn; try discriminate.
        destruct (member "password" second) as [p0 |] eqn:Hp; cbn;
          [| discriminate].
        intros [= <- <-]. eauto 7.
    + intros (first & second & rest & -> & Hu & Hp).
      unfold credentials. cbn. rewrite Hu. cbn. now rewrite Hp.
  - reflexivity.
  - intros first u Hu. unfold credentials. cbn. now rewrite Hu.
  - intros first rest Hu. unfold credentials. cbn. now rewrite Hu.
Qed.

End RedshiftSetupFacts.

(** ** More on [str2bool] *)

Module Str2BoolMore.
Import Str2Bool Str2BoolFacts.

Lemma lower_length s : String.length (lower s) = String.length s.
Proof. induction s as [| c s IH]; simpl; congruence. Qed.

Lemma lower_char_blank c : Ascii.eqb " " (lower_char c) = Ascii.eqb " " c.
Proof. destruct c as [[] [] [] [] [] [] [] []]; reflexivity. Qed.

Lemma lower_blank s : contains_char " " (lower s) = contains_char " " s.
Proof.
  induction s as [| c s IH]; [reflexivity |].
  cbn [lower contains_char]. now rewrite lower_char_blank, IH.
Qed.

Lemma accepted_words w :
  In w (truthy ++ falsy) ->
  (1 <= String.length w <= 5)%nat /\ contains_char " " w = false.
Proof.
  unfold truthy, falsy. simpl.
  intros H. repeat (destruct H as [<- | H]; [simpl; split; [lia | reflexivity] |]).
  destruct H.
Qed.

(** X6. [str2bool] strips nothing and accepts nothing long: the empty
    string, every string of more than five characters and every string with
    a blank in it raise [ArgumentTypeError]. *)
Theorem str2bool_rejects :
  (forall s, (String.length s = 0 \/ 5 < String.length s)%nat ->
             str2bool (ArgStr s) = Raises expected) /\
  (forall s, contains_char " " s = true ->
             str2bool (ArgStr s) = Raises expected).
Proof.
  assert (Hraise : forall s, ~ In (lower s) (truthy ++ falsy) ->
                             str2bool (ArgStr s) = Raises expected).
  { intros s Hs. apply str2bool_raises_iff.
    rewrite in_app_iff in Hs. tauto. }
  split; intros s Hs; apply Hraise; intros Hin;
    apply accepted_words in Hin as (Hlen & Hblank).
  - rewrite lower_length in Hlen. lia.
  - rewrite lower_blank in Hblank. congruence.
Qed.

Lemma str2bool_rejects_witness :
  str2bool (ArgStr "") = Raises expected /\
  str2bool (ArgStr "truthy") = Raises expected /\
  str2bool (ArgStr "true ") = Raises expected.
Proof.
  destruct str2bool_rejects as (Hlen & Hblank).
  split; [apply Hlen; left; reflexivity |].
  split; [apply Hlen; right; simpl; lia |].
  apply Hblank. reflexivity.
Defined.

End Str2BoolMore.

(** ** Around the tuning report *)

Module HpoCellsFacts.
Import Hpo HpoFacts HpoCells.

Lemma StronglySorted_app_inv {A : Type} (R : A -> A -> Prop) l1 l2 :
  StronglySorted R (l1 ++ l2) ->
  forall x y, In x l1 -> In y l2 -> R x y.
Proof.
  induction l1 as [| a l1 IH]; intros Hs x y Hx Hy; [destruct Hx |].
  cbn [app] in Hs. inversion Hs as [| ? ? Hs' Ha]; subst.
  destruct Hx as [<- | Hx]; [| now apply IH].
  rewrite List.Forall_forall in Ha. apply Ha. apply in_or_app. now right.
Qed.

Lemma In_firstn {A : Type} (x : A) n l : In x (firstn n l) -> In x l.
Proof.
  revert n. induction l as [| a l IH]; intros [| n]; cbn [firstn In];
    try tauto.
  intros [H | H]; [now left | right; eauto].
Qed.

Lemma StronglySorted_firstn {A : Type} (R : A -> A -> Prop) n l :
  StronglySorted R l -> StronglySorted R (firstn n l).
Proof.
  intros Hs. revert n. induction Hs as [| a l Hs IH Ha]; intros [| n];
    cbn [firstn]; try constructor; [apply IH |].
  rewrite List.Forall_forall in *. intros x Hx. apply Ha.
  eapply In_firstn. exact Hx.
Qed.



(** X8. Where the report cell returns a report,
    [len(hpo_report) - hpo_report.index] (the abscissa of the third plot) is
    its column [job_id] (the abscissa of the second), and sorting it by
    [job_id] once more returns it unchanged. *)
Theorem report_axes_agree (summaries : list Trial) (report : Frame ReportRow) :
  hpo_report summaries = Value report ->
  order_axis report = map job_id (rows report) /\
  sort_values "job_id" by_job_id report = Value report.
Proof.
  intros Hreport. destruct summaries as [| t rest]; [discriminate Hreport |].
  rewrite hpo_report_reversed in Hreport.
  remember (t :: rest) as listing eqn:E. clear E t rest.
  assert (Hrows : report =
            mkFrame (trial_columns ++ ["job_id"])
              (rev (map (with_job_id (length listing)) (enumerate_from 0 listing))))
    by congruence.
  subst report. clear Hreport. split.
  - unfold order_axis. cbn [rows].
    rewrite length_rev, length_map, enumerate_from_length.
    rewrite !map_rev, !map_map. reflexivity.
  - unfold sort_values, sort_values_with. cbn [columns rows].
    change (str_in "job_id" (trial_columns ++ ["job_id"])) with true.
    cbv iota. do 2 f_equal.
    apply (sorted_unique job_id).
    + apply sorted_by_job_id, stable_sort_by_job_id.
    + apply reversed_strictly_sorted.
    + apply sort_rows_perm.
Qed.

Lemma report_axes_agree_witness :
  exists report,
    hpo_report finished_search = Value report /\
    order_axis report = [1; 2; 3; 4; 5]%Z /\
    map job_id (rows report) = [1; 2; 3; 4; 5]%Z.
Proof.
  eexists. split; [reflexivity |].
  split; [| reflexivity].
  etransitivity;
    [apply (report_axes_agree finished_search); reflexivity | reflexivity].
Defined.

(** X9. On an empty listing the cell of the best trials raises [KeyError].
    On any other listing, and whichever sort pandas runs, its table has at
    most ten rows, each a row of the data frame under its own label, larger
    objective values first and rows without a value last; a row of the data
    frame that the table leaves out has no larger objective value than a row
    it shows. *)
Theorem best_trials_are_best (sort_objective : list Row -> list Row) :
  sorts_by by_objective_descending sort_objective ->
  best_trials sort_objective [] = KeyError "FinalObjectiveValue" /\
  forall (t : Trial) (rest : list Trial),
    let summaries := t :: rest in
    exists table,
      best_trials sort_objective summaries = Value table /\
      length (rows table) = Nat.min 10 (length summaries) /\
      (forall r, In r (rows table) -> In r (rows (dataframe summaries))) /\
      StronglySorted (fun a b => by_objective_descending a b = true)
        (rows table) /\
      (forall shown left_out,
         In shown (rows table) ->
         In left_out (rows (dataframe summaries)) ->
         ~ In left_out (rows table) ->
         match FinalObjectiveValue (trial shown),
               FinalObjectiveValue (trial left_out) with
         | Some a, Some b => (b <= a)%Q
         | Some _, None => True
         | None, Some _ => False
         | None, None => True
         end).
Proof.
  intros Hsort. split; [reflexivity |].
  intros t rest summaries.
  unfold best_trials, sort_values_with.
  subst summaries. rewrite dataframe_columns, dataframe_rows.
  change (str_in "FinalObjectiveValue" trial_columns) with true.
  cbn [cell_bind]. unfold head. cbn [columns rows].
  remember (t :: rest) as summaries eqn:E. clear E.
  destruct (Hsort (enumerate_from 0 summaries)) as [Hperm Hsorted].
  remember (sort_objective (enumerate_from 0 summaries)) as sorted eqn:E.
  clear E. eexists. split; [reflexivity |]. cbn [rows].
  split; [| split; [| split]].
  - rewrite length_firstn, (Permutation_length Hperm).
    now rewrite enumerate_from_length.
  - intros r Hr. apply In_firstn in Hr.
    eapply Permutation_in; [exact Hperm | exact Hr].
  - now apply StronglySorted_firstn.
  - intros shown left_out Hshown Hframe Hleft.
    assert (Hrest : In left_out (skipn 10 sorted)).
    { assert (Hin : In left_out sorted)
        by (eapply Permutation_in; [symmetry; exact Hperm | exact Hframe]).
      rewrite <- (firstn_skipn 10 sorted) in Hin.
      apply in_app_or in Hin as [Hin | Hin]; [contradiction | exact Hin]. }
    rewrite <- (firstn_skipn 10 sorted) in Hsorted.
    pose proof (StronglySorted_app_inv _ _ _ Hsorted _ _ Hshown Hrest) as H.
    unfold by_objective_descending in H.
    destruct (FinalObjectiveValue (trial shown)),
             (FinalObjectiveValue (trial left_out)); try easy.
    now apply Qle_bool_iff.
Qed.

Lemma best_trials_are_best_witness :
  exists table,
    best_trials (sort_rows by_objective_descending) finished_search = Value table /\
    length (rows table) = 5%nat.
Proof.
  destruct (best_trials_are_best (sort_rows by_objective_descending)
              stable_sort_by_objective) as [_ Htable].
  destruct (Htable (mkTrial "pt-bert-005" Completed (3 # 100000) (Some (88 # 100)%Q) 5)
              [ mkTrial "pt-bert-004" Failed (41 # 100000) None 4;
                mkTrial "pt-bert-003" Completed (6 # 100000) (Some (91 # 100)%Q) 3;
                mkTrial "pt-bert-002" Stopped (1 # 100000) (Some (80 # 100)%Q) 2;
                mkTrial "pt-bert-001" Completed (5 # 100000) (Some (91 # 100)%Q) 1 ])
    as (table & Hvalue & Hlength & _).
  exists table. split; [exact Hvalue | exact Hlength].
Defined.

End HpoCellsFacts.

(** ** The names of the tuning jobs *)

Module JobNamesFacts.
Import JobNames.

Lemma digit_inj a b : (a < 10)%nat -> (b < 10)%nat -> digit a = digit b -> a = b.
Proof.
  unfold digit. intros Ha Hb H. apply (f_equal nat_of_ascii) in H.
  rewrite !nat_ascii_embedding in H by lia. lia.
Qed.

Lemma two_digits_inj n m :
  (n < 100)%nat -> (m < 100)%nat -> two_digits n = two_digits m -> n = m.
Proof.
  unfold two_digits. intros Hn Hm.
  pose proof (Nat.div_mod_eq n 10) as En.
  pose proof (Nat.div_mod_eq m 10) as Em.
  pose proof (Nat.mod_upper_bound n 10) as Rn.
  pose proof (Nat.mod_upper_bound m 10) as Rm.
  remember (n / 10)%nat as qn. remember (n mod 10)%nat as rn.
  remember (m / 10)%nat as qm. remember (m mod 10)%nat as rm.
  intros [= H1 H2].
  apply digit_inj in H1; [| lia | lia].
  apply digit_inj in H2; [| lia | lia].
  lia.
Qed.

Lemma strftime_inj t1 t2 :
  valid_time t1 -> valid_time t2 ->
  strftime_d_H_M_S t1 = strftime_d_H_M_S t2 ->
  tm_mday t1 = tm_mday t2 /\ tm_hour t1 = tm_hour t2 /\
  tm_min t1 = tm_min t2 /\ tm_sec t1 = tm_sec t2.
Proof.
  intros (_ & Hd1 & Hh1 & Hm1 & Hs1) (_ & Hd2 & Hh2 & Hm2 & Hs2).
  unfold strftime_d_H_M_S.
  unfold two_digits.
  remember (digit (tm_mday t1 / 10)) as a1. remember (digit (tm_mday t1 mod 10)) as a2.
  remember (digit (tm_hour t1 / 10)) as b1. remember (digit (tm_hour t1 mod 10)) as b2.
  remember (digit (tm_min t1 / 10)) as c1. remember (digit (tm_min t1 mod 10)) as c2.
  remember (digit (tm_sec t1 / 10)) as d1. remember (digit (tm_sec t1 mod 10)) as d2.
  remember (digit (tm_mday t2 / 10)) as a1'. remember (digit (tm_mday t2 mod 10)) as a2'.
  remember (digit (tm_hour t2 / 10)) as b1'. remember (digit (tm_hour t2 mod 10)) as b2'.
  remember (digit (tm_min t2 / 10)) as c1'. remember (digit (tm_min t2 mod 10)) as c2'.
  remember (digit (tm_sec t2 / 10)) as d1'. remember (digit (tm_sec t2 mod 10)) as d2'.
  intros [= -> -> -> -> -> -> -> ->]. subst.
  repeat split; apply two_digits_inj; try lia; unfold two_digits; congruence.
Qed.

Lemma glue_tuning_job_name_text t :
  glue_tuning_job_name t = Some ("pt-bert-mrpc-bs-" +:+ strftime_d_H_M_S t).
Proof. unfold glue_tuning_job_name. cbn. now rewrite append_nil_r. Qed.

Lemma squad_tuning_job_name_text t :
  squad_tuning_job_name t = Some ("pt-squad1-bs-" +:+ strftime_d_H_M_S t).
Proof. unfold squad_tuning_job_name. cbn. now rewrite append_nil_r. Qed.

Lemma strftime_length t : String.length (strftime_d_H_M_S t) = 11%nat.
Proof. reflexivity. Qed.

(** X10. The name of a tuning job carries the day of the month, the hour,
    the minute and the second of its launch and nothing else of the date:
    two launches get the same name exactly when they agree on these four, so
    a name comes back a month later. A GLUE name has 27 characters, a SQuAD
    name 24, and a GLUE name is never a SQuAD name. *)
Theorem tuning_job_names (t1 t2 : struct_time) :
  valid_time t1 -> valid_time t2 ->
  (glue_tuning_job_name t1 = glue_tuning_job_name t2 <->
   tm_mday t1 = tm_mday t2 /\ tm_hour t1 = tm_hour t2 /\
   tm_min t1 = tm_min t2 /\ tm_sec t1 = tm_sec t2) /\
  (squad_tuning_job_name t1 = squad_tuning_job_name t2 <->
   tm_mday t1 = tm_mday t2 /\ tm_hour t1 = tm_hour t2 /\
   tm_min t1 = tm_min t2 /\ tm_sec t1 = tm_sec t2) /\
  glue_tuning_job_name t1 <> squad_tuning_job_name t2 /\
  (exists name, glue_tuning_job_name t1 = Some name /\
                String.length name = 27%nat) /\
  (exists name, squad_tuning_job_name t1 = Some name /\
                String.length name = 24%nat).
Proof.
  intros Hv1 Hv2.
  rewrite !glue_tuning_job_name_text, !squad_tuning_job_name_text.
  assert (Hsame : tm_mday t1 = tm_mday t2 /\ tm_hour t1 = tm_hour t2 /\
                  tm_min t1 = tm_min t2 /\ tm_sec t1 = tm_sec t2 ->
                  strftime_d_H_M_S t1 = strftime_d_H_M_S t2).
  { unfold strftime_d_H_M_S. intros (-> & -> & -> & ->). reflexivity. }
  split; [| split; [| split; [| split]]].
  - split.
    + intros H.
      assert (E : "pt-bert-mrpc-bs-" +:+ strftime_d_H_M_S t1 =
                  "pt-bert-mrpc-bs-" +:+ strftime_d_H_M_S t2) by congruence.
      apply String.app_inj in E. now apply strftime_inj.
    + intros H. now rewrite (Hsame H).
  - split.
    + intros H.
      assert (E : "pt-squad1-bs-" +:+ strftime_d_H_M_S t1 =
                  "pt-squad1-bs-" +:+ strftime_d_H_M_S t2) by congruence.
      apply String.app_inj in E. now apply strftime_inj.
    + intros H. now rewrite (Hsame H).
  - intros H.
    assert (E : "pt-bert-mrpc-bs-" +:+ strftime_d_H_M_S t1 =
                "pt-squad1-bs-" +:+ strftime_d_H_M_S t2) by congruence.
    discriminate E.
  - eexists. split; [reflexivity |].
    now rewrite append_length, strftime_length.
  - eexists. split; [reflexivity |].
    now rewrite append_length, strftime_length.
Qed.

Lemma tuning_job_names_witness :
  glue_tuning_job_name (mkTime 2020 3 7 9 5 59) =
  glue_tuning_job_name (mkTime 2020 4 7 9 5 59).
Proof.
  apply (tuning_job_names (mkTime 2020 3 7 9 5 59) (mkTime 2020 4 7 9 5 59));
    unfold valid_time; simpl; lia.
Defined.

End JobNamesFacts.

(** ** More on the metric definitions *)

Module MetricMore.
Import Metric MetricFacts.

Lemma key_rule_hits key text :
  let r := Cat (lit key) (Grp (Plus digit_or_point)) in
  search r text <> None <->
  exists before c after,
    text = before ++ key ++ c :: after /\
    in_class digit_or_point_ranges c = true.
Proof.
  intros r. split.
  - intros Hhit. destruct (search r text) as [g |] eqn:E; [| congruence].
    apply search_Some_occurs in E as (before & m & after & -> & Hm).
    apply key_then_numeral_language in Hm as (c & d & -> & Hc).
    exists before, c, (d ++ after). split; [| assumption].
    now rewrite <- !app_assoc.
  - intros (before & c & after & -> & Hc).
    destruct (occurs_search_Some r (before ++ key ++ c :: after)) as (g & Hg);
      [| congruence].
    exists before, (key ++ [c]), after. split.
    + now rewrite <- !app_assoc.
    + now apply key_then_numeral_shortest.
Qed.

(** X11. Each of the two metric definitions finds a value in a log exactly
    when the log has its key, quotes included, directly followed by a digit
    or a point: ['f1_': ] for the GLUE rule, ['f1': ] for the SQuAD rule. *)
Theorem metric_definitions_hit (log : list ascii) :
  (search glue_regex log <> None <->
   exists before c after,
     log = before ++ text_of "'f1_': " ++ c :: after /\
     in_class digit_or_point_ranges c = true) /\
  (search squad_regex log <> None <->
   exists before c after,
     log = before ++ text_of "'f1': " ++ c :: after /\
     in_class digit_or_point_ranges c = true).
Proof.
  split.
  - apply (key_rule_hits (text_of "'f1_': ") log).
  - apply (key_rule_hits (text_of "'f1': ") log).
Qed.

(** X12. What the group of each metric definition holds at the first
    match: the whole run of digits and points after the key, up to the first
    character that is neither (a blank, a comma, a sign, the letter of an
    exponent), whether or not that run is a numeral. *)
Theorem metric_definitions_capture (before d after : list ascii) :
  d <> [] ->
  digits_and_points d = true ->
  numeral_ends after = true ->
  (search glue_regex (before ++ text_of "'f1_': ") = None ->
   search glue_regex (before ++ text_of "'f1_': " ++ d ++ after)
     = Some (Some d)) /\
  (search squad_regex (before ++ text_of "'f1': ") = None ->
   search squad_regex (before ++ text_of "'f1': " ++ d ++ after)
     = Some (Some d)).
Proof.
  intros Hne Hd Hafter. split; intros Hbefore.
  - now apply (search_numeral_after_key (text_of "'f1_': ")).
  - now apply (search_numeral_after_key (text_of "'f1': ")).
Qed.

Lemma metric_definitions_capture_witness :
  search glue_regex (text_of "loss 3 'f1_': 5e-05 done") =
    Some (Some (text_of "5")) /\
  search squad_regex (text_of "{'f1': 1.2.3}") =
    Some (Some (text_of "1.2.3")).
Proof.
  split.
  - apply (metric_definitions_capture
             (text_of "loss 3 ") (text_of "5") (text_of "e-05 done"));
      [discriminate | reflexivity | reflexivity | reflexivity].
  - apply (metric_definitions_capture
             (text_of "{") (text_of "1.2.3") (text_of "}"));
      [discriminate | reflexivity | reflexivity | reflexivity].
Defined.

End MetricMore.
